(** * dave_packer: the Midnight Club 3 [.dat] archive packer and unpacker

    A shallow embedding of [dave_packer.py].  Bytes and characters are
    integers ([Z]); a Python [bytes] object or [str] is the list of its
    byte values (the "ANSI" codec is taken to be a single-byte code page,
    so that encoding and decoding a character leave its code unchanged).
    Loops that Python writes as [while True] take a bound on their number
    of iterations and answer [None] when the bound is reached. *)

From Stdlib Require Import ZArith Lia Bool String Ascii List.
From Stdlib Require Import Sorting.Sorted Sorting.Permutation.
Import ListNotations.
Local Open Scope Z_scope.

(** ** Python primitives used by the program *)

Module Py.

(** [bytes(n)]: [n] zero bytes. *)
Definition zeros (n : Z) : list Z := repeat 0 (Z.to_nat n).

(** A string literal as the list of its character codes. *)
Definition str (s : string) : list Z :=
  map (fun c => Z.of_N (N_of_ascii c)) (list_ascii_of_string s).

(** [len(x)]. *)
Definition len {A} (l : list A) : Z := Z.of_nat (length l).

(** An index of a slice, brought into [0 .. len]: a negative index
    counts from the end. *)
Definition clamp (n i : Z) : Z :=
  if i <? 0 then Z.max 0 (n + i) else Z.min i n.

(** [l[lo:hi]]. *)
Definition slice {A} (l : list A) (lo hi : Z) : list A :=
  let a := clamp (len l) lo in
  let b := clamp (len l) hi in
  firstn (Z.to_nat (b - a)) (skipn (Z.to_nat a) l).

(** [l[i]] for an index in range (0 stands for what is
    never read). *)
Definition item (l : list Z) (i : Z) : Z := nth (Z.to_nat i) l 0.

(** [int.from_bytes(bs, "little")]; the empty string gives 0. *)
Fixpoint int_from_bytes (bs : list Z) : Z :=
  match bs with
  | [] => 0
  | b :: rest => b + 256 * int_from_bytes rest
  end.

(** The [n] little-endian bytes of [v]. *)
Fixpoint to_bytes (n : nat) (v : Z) : list Z :=
  match n with
  | O => []
  | S k => v mod 256 :: to_bytes k (v / 256)
  end.

(** [struct.pack("<I", v)]: raises [struct.error] outside [0, 2^32). *)
Definition pack_I (v : Z) : option (list Z) :=
  if (0 <=? v) && (v <? 2 ^ 32) then Some (to_bytes 4 v) else None.

(** [struct.pack("<II..I", v1, ..., vn)]. *)
Fixpoint pack_Is (vs : list Z) : option (list Z) :=
  match vs with
  | [] => Some []
  | v :: rest =>
      match pack_I v, pack_Is rest with
      | Some b, Some bs => Some (b ++ bs)
      | _, _ => None
      end
  end.

(** Equality of two strings. *)
Fixpoint eqb (a b : list Z) : bool :=
  match a, b with
  | [], [] => true
  | x :: a', y :: b' => (x =? y) && eqb a' b'
  | _, _ => false
  end.

(** [s.endswith(c)] for a one-character [c]. *)
Fixpoint endswith (s : list Z) (c : Z) : bool :=
  match s with
  | [] => false
  | [x] => x =? c
  | _ :: rest => endswith rest c
  end.

(** The order of [str]: lexicographic on the character codes. *)
Fixpoint leb (a b : list Z) : bool :=
  match a, b with
  | [], _ => true
  | _ :: _, [] => false
  | x :: a', y :: b' =>
      if x <? y then true else if y <? x then false else leb a' b'
  end.

Fixpoint insert (p : list Z) (l : list (list Z)) : list (list Z) :=
  match l with
  | [] => [p]
  | q :: rest => if leb p q then p :: l else q :: insert p rest
  end.

(** [l.sort()] on a list of strings. *)
Definition sort (l : list (list Z)) : list (list Z) :=
  fold_right insert [] l.

(** [sep.join(l)] for a one-byte [sep]. *)
Fixpoint join (sep : Z) (l : list (list Z)) : list Z :=
  match l with
  | [] => []
  | [p] => p
  | p :: rest => p ++ sep :: join sep rest
  end.

(** [sum(len(p) + 1 for p in l)]. *)
Definition sum_len1 (l : list (list Z)) : Z :=
  fold_right (fun p acc => (len p + 1) + acc) 0 l.

End Py.

Definition is_byte (b : Z) : Prop := 0 <= b < 256.

(** ** Constants and [Padding] *)

(** [BASE64CHARSET]: the zero character followed by 47 printable ones. *)
Definition BASE64CHARSET : list Z :=
  0 :: Py.str " #$()-./?0123456789_abcdefghijklmnopqrstuvwxyz~".

(** The default of [Padding]'s parameter [pad]. *)
Definition PAD : Z := 0x800.

Definition Padding (num pad : Z) (restOnly : bool) : Z :=
  if restOnly then
    if num mod pad =? 0 then 0 else pad - num mod pad
  else
    if num mod pad =? 0 then num else num + pad - num mod pad.

(** [x + bytes(Padding(len(x), restOnly=True))], as [pack] writes the
    table of contents, the string table and every payload. *)
Definition padded (x : list Z) : list Z :=
  x ++ Py.zeros (Padding (Py.len x) PAD true).

(** ** The packed string table: 6-bit groups *)

(** The variables of the inner [while] loop of the "Dave" branch, and the
    position of the [BytesIO] it reads. *)
Record bitstate : Type := {
  pos : nat;
  remainingBits : Z;
  lastValue : Z
}.

(** [stringTable.read(1)] at position [p], as [int.from_bytes] sees it,
    and the position after the read. At the end of the table the read
    returns the empty string, whose value is 0, and the position stays. *)
Definition read_byte (table : list Z) (p : nat) : Z * nat :=
  match nth_error table p with
  | Some b => (b, S p)
  | None => (0, p)
  end.

(** One turn of the loop: the group appended to [temp] and the new state. *)
Definition next_group (table : list Z) (st : bitstate) : Z * bitstate :=
  let r := remainingBits st in
  let '(value, p) :=
    if negb (r =? 6) then read_byte table (pos st) else (0, pos st) in
  let g := Z.lor (Z.shiftl (Z.land value (2 ^ (6 - r) - 1)) r)
                 (Z.shiftr (lastValue st) (8 - r)) in
  (g, {| pos := p;
         remainingBits := if r =? 6 then 0 else 8 - (6 - r);
         lastValue := value |}).

(** The loop, bounded by [fuel] turns: [temp] once a group is 0. *)
Fixpoint extract_loop (fuel : nat) (table : list Z) (st : bitstate)
  (temp : list Z) : option (list Z) :=
  match fuel with
  | O => None
  | S f =>
      let '(g, st') := next_group table st in
      let temp' := temp ++ [g] in
      if g =? 0 then Some temp' else extract_loop f table st' temp'
  end.

(** The state after [stringTable.seek(offset)] and the loop's
    initialisation. *)
Definition start (offset : Z) : bitstate :=
  {| pos := Z.to_nat offset; remainingBits := 0; lastValue := 0 |}.

(** A number of turns that is always enough (see [extract_loop_total]). *)
Definition enough (table : list Z) : nat := 4 * length table + 4.

Definition extract (fuel : nat) (table : list Z) (offset : Z)
  : option (list Z) :=
  extract_loop fuel table (start offset) [].

(** ** The packed string table: paths *)

(** ["".join(BASE64CHARSET[char] for char in syms if char < 48)]. *)
Definition literal (syms : list Z) : list Z :=
  map (Py.item BASE64CHARSET) (filter (fun char => char <? 48) syms).

(** The path of an entry from its groups [temp] (the closing 0 included)
    and the path of the entry before it. *)
Definition reconstruct (prevName temp : list Z) : list Z :=
  if Py.item temp 0 <? 56 then
    literal (Py.slice temp 0 (-1))
  else
    Py.slice prevName 0
      ((Py.item temp 0 - 0x38) + Z.shiftl (Py.item temp 1 - 0x20) 3)
    ++ literal (Py.slice temp 2 (-1)).

(** ** Entries of the table of contents *)

Record TOCEntry : Type := {
  nameOffset : Z;
  fileOffset : Z;
  uncompressedSize : Z;
  compressedSize : Z;
  filepath : list Z
}.

Definition set_filepath (e : TOCEntry) (p : list Z) : TOCEntry :=
  {| nameOffset := nameOffset e;
     fileOffset := fileOffset e;
     uncompressedSize := uncompressedSize e;
     compressedSize := compressedSize e;
     filepath := p |}.

Definition isCompressed (e : TOCEntry) : bool :=
  negb (uncompressedSize e =? compressedSize e).

(** [s.split(sep)] for a one-character [sep]. *)
Fixpoint split (sep : Z) (s : list Z) : list (list Z) :=
  match s with
  | [] => [[]]
  | x :: rest =>
      if x =? sep then [] :: split sep rest
      else match split sep rest with
           | p :: ps => (x :: p) :: ps
           | [] => [[x]]
           end
  end.

(** The code of ["/"]. *)
Definition slash : Z := 47.

(** [getDir], as a function of [self.filepath]. *)
Definition dirname (filepath : list Z) : list Z :=
  let path := split slash filepath in
  if 1 <? Py.len path then Py.join slash (Py.slice path 0 (-1)) else [].

Definition getDir (e : TOCEntry) : list Z := dirname (filepath e).

Definition isDir (e : TOCEntry) : bool := Py.endswith (filepath e) slash.

(** The "Dave" branch of [unpack]: the entries in the order of the table
    of contents, [prevName] handed from each to the next. *)
Fixpoint decode_packed (fuel : nat) (stringTable : list Z)
  (fileEntries : list TOCEntry) (prevName : list Z)
  : option (list TOCEntry) :=
  match fileEntries with
  | [] => Some []
  | entry :: rest =>
      match extract fuel stringTable (nameOffset entry) with
      | None => None
      | Some temp =>
          let name := reconstruct prevName temp in
          match decode_packed fuel stringTable rest name with
          | None => None
          | Some done => Some (set_filepath entry name :: done)
          end
      end
  end.

(** ** The raw string table *)

(** The inner loop of the "DAVE" branch, bounded by [fuel] turns: a read
    at the end of the table returns the empty string, which is not the
    zero byte and appends nothing. *)
Fixpoint raw_loop (fuel : nat) (stringTable : list Z) (p : nat)
  (name : list Z) : option (list Z) :=
  match fuel with
  | O => None
  | S f =>
      match nth_error stringTable p with
      | Some byte =>
          if byte =? 0 then Some name
          else raw_loop f stringTable (S p) (name ++ [byte])
      | None => raw_loop f stringTable p name
      end
  end.

(** The path read at [offset]. *)
Definition raw_decode (fuel : nat) (stringTable : list Z) (offset : Z)
  : option (list Z) :=
  raw_loop fuel stringTable (Z.to_nat offset) [].

Fixpoint decode_raw (fuel : nat) (stringTable : list Z)
  (fileEntries : list TOCEntry) : option (list TOCEntry) :=
  match fileEntries with
  | [] => Some []
  | entry :: rest =>
      match raw_decode fuel stringTable (nameOffset entry) with
      | None => None
      | Some name =>
          match decode_raw fuel stringTable rest with
          | None => None
          | Some done =>
              Some (set_filepath entry (filepath entry ++ name) :: done)
          end
      end
  end.

(** What [pack] writes for a list of paths, and the [nameOffset] it
    gives to the path at index [i]. *)
Definition raw_encode (paths : list (list Z)) : list Z := Py.join 0 paths.

Definition raw_offset (paths : list (list Z)) (i : nat) : Z :=
  Py.sum_len1 (firstn i paths).

(** The two magic tags. *)
Definition Dave : list Z := Py.str "Dave".
Definition DAVE : list Z := Py.str "DAVE".

(** The [if magic == ... elif magic == ...] of [unpack]; a third tag
    leaves the entries as they were read. *)
Definition resolve (fuel : nat) (magic stringTable : list Z)
  (fileEntries : list TOCEntry) : option (list TOCEntry) :=
  if Py.eqb magic Dave then decode_packed fuel stringTable fileEntries []
  else if Py.eqb magic DAVE then decode_raw fuel stringTable fileEntries
  else Some fileEntries.

(** ** Reading the archive file *)

(** A computation on the open archive: the bytes of the file, the
    position before, the result and the position after. *)
Definition File (A : Type) : Type := list Z -> nat -> A * nat.

Definition ret {A} (a : A) : File A := fun _ p => (a, p).

Definition bind {A B} (c : File A) (k : A -> File B) : File B :=
  fun bytes p => let '(a, p') := c bytes p in k a bytes p'.

Notation "x <- c ;; k" := (bind c (fun x => k))
  (at level 61, c at next level, right associativity).
Notation "c ;;; k" := (bind c (fun _ => k))
  (at level 61, right associativity).

(** [file.read(n)]. *)
Definition read (n : Z) : File (list Z) :=
  fun bytes p =>
    let r := firstn (Z.to_nat n) (skipn p bytes) in (r, (p + length r)%nat).

(** [file.seek(o)]. *)
Definition seek (o : Z) : File unit := fun _ _ => (tt, Z.to_nat o).

(** [int.from_bytes(file.read(4), "little")]. *)
Definition read_int : File Z :=
  b <- read 4 ;; ret (Py.int_from_bytes b).

(** [TOCEntry(file)]. *)
Definition new_TOCEntry : File TOCEntry :=
  a <- read_int ;;
  b <- read_int ;;
  c <- read_int ;;
  d <- read_int ;;
  ret {| nameOffset := a; fileOffset := b;
         uncompressedSize := c; compressedSize := d; filepath := [] |}.

(** [[TOCEntry(file) for amount in range(n)]]. *)
Fixpoint read_entries (n : nat) : File (list TOCEntry) :=
  match n with
  | O => ret []
  | S k => e <- new_TOCEntry ;; es <- read_entries k ;; ret (e :: es)
  end.

(** What [unpack] reads before it looks at the magic tag. *)
Record Archive : Type := {
  magic : list Z;
  numFiles : Z;
  tocLength : Z;
  stringTableLength : Z;
  fileEntries : list TOCEntry;
  stringTable : list Z
}.

Definition read_archive : File Archive :=
  m <- read 4 ;;
  n <- read_int ;;
  t <- read_int ;;
  s <- read_int ;;
  seek 0x800 ;;;
  es <- read_entries (Z.to_nat n) ;;
  seek (0x800 + t) ;;;
  st <- read s ;;
  ret {| magic := m; numFiles := n; tocLength := t;
         stringTableLength := s; fileEntries := es; stringTable := st |}.

(** ** The asset source and sink *)

(** What [unpack] raises. *)
Inductive error : Type :=
| OutputDirectoryMissing   (* Exception("Output directory does not exist") *)
| ZlibError.               (* zlib.error, from zlib.decompress *)

(** What [unpack] does to the output directory; paths are relative to it.
    [MakeDirs d]: the directory [d] exists afterwards (the test
    [os.path.exists] followed by [os.makedirs]).  [WriteFile p data]:
    the file [p] is opened for writing and [data] written to it.  The
    output directory is taken to accept both: what the code does when
    [os.makedirs] or [open] raises (at the empty path, which is the output
    directory itself, or where a file stands in the place of a directory)
    is not modelled. *)
Inductive sink_op : Type :=
| MakeDirs (dirpath : list Z)
| WriteFile (path data : list Z).

(** The operations done, and the exception that ended them, if any. *)
Definition outcome : Type := (list sink_op * option error)%type.

Definition after (ops : list sink_op) (r : outcome) : outcome :=
  (ops ++ fst r, snd r).

(** The tree [pack] is given: the paths its walk collects (directories
    with their closing ["/"]), in the order of the walk, and the bytes
    read from the file at a path. *)
Record AssetSource : Type := {
  listing : list (list Z);
  contents : list Z -> list Z
}.

(** The files an outcome leaves in the output directory, the last write
    to a path first. *)
Fixpoint written (ops : list sink_op) : list (list Z * list Z) :=
  match ops with
  | [] => []
  | MakeDirs _ :: rest => written rest
  | WriteFile p d :: rest => written rest ++ [(p, d)]
  end.

(** The files of a source: the listed paths that are no directories,
    with their contents. *)
Definition files_of (src : AssetSource) : list (list Z * list Z) :=
  map (fun p => (p, contents src p))
      (filter (fun p => negb (Py.endswith p slash)) (listing src)).

Section Codec.

(** [zlib]: raw deflate at the default level, and its inverse, which
    raises on a malformed stream. *)
Variable deflate : list Z -> list Z.
Variable inflate : list Z -> option (list Z).

(** *** unpack *)

(** The body of the [with open(filepath, "wb")] block. *)
Definition extract_file (entry : TOCEntry) : File outcome :=
  seek (fileOffset entry) ;;;
  data <- read (compressedSize entry) ;;
  if isCompressed entry then
    match inflate data with
    | Some plain => ret ([WriteFile (filepath entry) plain], None)
    | None => ret ([WriteFile (filepath entry) []], Some ZlibError)
    end
  else ret ([WriteFile (filepath entry) data], None).

(** The last loop of [unpack]. *)
Fixpoint extract_entries (outputDirectoryExists : bool)
  (entries : list TOCEntry) : File outcome :=
  match entries with
  | [] => ret ([], None)
  | entry :: rest =>
      if negb outputDirectoryExists then
        ret ([], Some OutputDirectoryMissing)
      else if isDir entry then
        r <- extract_entries outputDirectoryExists rest ;;
        ret (after [MakeDirs (getDir entry)] r)
      else
        w <- extract_file entry ;;
        match snd w with
        | Some e => ret (after [MakeDirs (getDir entry)] w)
        | None =>
            r <- extract_entries outputDirectoryExists rest ;;
            ret (after (MakeDirs (getDir entry) :: fst w) r)
        end
  end.

(** [unpack(file, outputDirectory)] on a file opened at position 0.
    [None]: a loop of the string table did not end within [fuel]
    turns. *)
Definition unpack_file (fuel : nat) (outputDirectoryExists : bool)
  : File (option outcome) :=
  a <- read_archive ;;
  match resolve fuel (magic a) (stringTable a) (fileEntries a) with
  | None => ret None
  | Some entries =>
      r <- extract_entries outputDirectoryExists entries ;;
      ret (Some r)
  end.

Definition unpack (fuel : nat) (file : list Z)
  (outputDirectoryExists : bool) : option outcome :=
  fst (unpack_file fuel outputDirectoryExists file O).

(** *** pack *)

(** [data], [uncompressedSize] and [compressedSize] for a path. *)
Definition payload (src : AssetSource) (compress : bool) (path : list Z)
  : list Z * Z * Z :=
  if negb (Py.endswith path slash) then
    let data := contents src path in
    if compress then (deflate data, Py.len data, Py.len (deflate data))
    else (data, Py.len data, Py.len data)
  else ([], 0, 0).

(** The loop over the sorted paths: for each path the four values
    written to [TOCBinary] and the bytes written to [filesBinary]. *)
Fixpoint pack_loop (src : AssetSource) (compress : bool)
  (paths : list (list Z)) (nameOffset estimatedFileOffset : Z)
  : list (TOCEntry * list Z) :=
  match paths with
  | [] => []
  | path :: rest =>
      let '(data, uncompressedSize, compressedSize) :=
        payload src compress path in
      ({| nameOffset := nameOffset;
          fileOffset := estimatedFileOffset;
          uncompressedSize := uncompressedSize;
          compressedSize := compressedSize;
          filepath := path |},
       padded data)
      :: pack_loop src compress rest
           (nameOffset + (Py.len path + 1))
           (estimatedFileOffset + Padding (Py.len data) PAD false)
  end.

(** [struct.pack("<IIII", ...)] of every entry, one after the other. *)
Fixpoint pack_entries (es : list TOCEntry) : option (list Z) :=
  match es with
  | [] => Some []
  | e :: rest =>
      match Py.pack_Is [nameOffset e; fileOffset e;
                        uncompressedSize e; compressedSize e],
            pack_entries rest with
      | Some b, Some bs => Some (b ++ bs)
      | _, _ => None
      end
  end.

(** The sorted paths and the two sizes of the header. *)
Definition sorted_paths (src : AssetSource) : list (list Z) :=
  Py.sort (listing src).

Definition estimatedTOCSize (src : AssetSource) : Z :=
  Padding (Py.len (sorted_paths src) * 16) PAD false.

Definition estimatedStringTableSize (src : AssetSource) : Z :=
  Padding (Py.sum_len1 (sorted_paths src)) PAD false.

(** The entries and payload blocks of [pack], in the order written. *)
Definition layout (src : AssetSource) (compress : bool)
  : list (TOCEntry * list Z) :=
  pack_loop src compress (sorted_paths src) 0
    (0x800 + estimatedTOCSize src + estimatedStringTableSize src).

(** [pack(assetPath, outputPath, compress)]: the bytes of the output
    file, or [None] when [struct.pack] raises (nothing is written). *)
Definition pack (src : AssetSource) (compress : bool)
  : option (list Z) :=
  let stringTable := sorted_paths src in
  match Py.pack_Is [Py.len stringTable; estimatedTOCSize src;
                    estimatedStringTableSize src],
        pack_entries (map fst (layout src compress)) with
  | Some fields, Some TOCBinary =>
      let Header := DAVE ++ fields ++ Py.zeros 0x7F0 in
      let stringTableBinary := raw_encode stringTable in
      let filesBinary := concat (map snd (layout src compress)) in
      Some (Header ++ padded TOCBinary ++ padded stringTableBinary
            ++ filesBinary)
  | _, _ => None
  end.

(** [pack] followed by [unpack] into an existing directory. *)
Definition pack_unpack (fuel : nat) (src : AssetSource)
  (compress : bool) : option outcome :=
  match pack src compress with
  | Some file => unpack fuel file true
  | None => None
  end.

End Codec.

(** ** Definitions used to state the properties *)

(** The first [n] groups the loop produces from a state, whether or not
    one of them is 0. *)
Fixpoint groups (n : nat) (table : list Z) (st : bitstate) : list Z :=
  match n with
  | O => []
  | S k => fst (next_group table st) :: groups k table (snd (next_group table st))
  end.

(** The state after [k] turns. *)
Fixpoint state_after (k : nat) (table : list Z) (st : bitstate) : bitstate :=
  match k with
  | O => st
  | S j => state_after j table (snd (next_group table st))
  end.

(** The path decoded for the entry before the one at index [i], where
    [first] is the value of [prevName] at the first entry. *)
Definition path_before (first : list Z) (done : list TOCEntry) (i : nat)
  : list Z :=
  match i with
  | O => first
  | S j => match nth_error done j with
           | Some e => filepath e
           | None => []
           end
  end.

(** Every name of a "DAVE" archive is closed by a zero byte of the string
    table, so that the loops that read the names end. *)
Definition names_end (a : Archive) : Prop :=
  magic a = DAVE ->
  forall e, In e (fileEntries a) ->
    exists j, (Z.to_nat (nameOffset e) <= j)%nat
              /\ nth_error (stringTable a) j = Some 0.

(** The source without any file or directory, and the archive [pack]
    writes for it: the header alone. *)
Definition no_assets : AssetSource :=
  {| listing := []; contents := fun _ => [] |}.

Definition empty_archive : list Z := DAVE ++ Py.zeros 0x7FC.

(** The same file under a tag that is neither "Dave" nor "DAVE". *)
Definition unknown_archive : list Z := Py.str "XXXX" ++ Py.zeros 0x7FC.

(** Two files that end after the first byte of [entryCount], which they
    give as 1. *)
Definition short_Dave : list Z := Dave ++ [1].
Definition short_unknown : list Z := Py.str "XXXX" ++ [1].

(** Two paths, the second a directory. *)
Definition two_paths : list (list Z) := [Py.str "a.txt"; Py.str "sub/"].

(** The tree with the file [a.txt] ("hi") and the directory [sub] with
    the file [b.txt] ("bye"), as the walk of [pack] lists it, and the
    archive [pack] writes for it without compression ([zlib] is never
    called). *)
Definition scenario : AssetSource :=
  {| listing := [Py.str "sub/"; Py.str "a.txt"; Py.str "sub/b.txt"];
     contents := fun path =>
       if Py.eqb path (Py.str "a.txt") then Py.str "hi"
       else if Py.eqb path (Py.str "sub/b.txt") then Py.str "bye"
       else [] |}.

Definition scenario_archive : list Z :=
  match pack (fun data => data) scenario false with
  | Some file => file
  | None => []
  end.


(** The bytes of the payload region that lie before the entry at index
    [i]. *)
Definition payload_before (l : list (TOCEntry * list Z)) (i : nat) : Z :=
  Py.len (concat (map snd (firstn i l))).

(** Nine files in one directory: seven names of 255 characters, one of
    127 and one of 128, so that the names and one separator for each
    count 2049 bytes.  Each file holds the first character of its name. *)
Definition long_names : AssetSource :=
  {| listing :=
       map (fun k => (48 + k) :: repeat 97 254) [1; 2; 3; 4; 5; 6; 7]
       ++ [120 :: repeat 97 126; 121 :: repeat 97 127];
     contents := fun path => firstn 1 path |}.

Definition long_names_archive : list Z :=
  match pack (fun data => data) long_names false with
  | Some file => file
  | None => []
  end.

(** The files of a list, each path given by its first character and its
    length. *)
Definition summary (files : list (list Z * list Z))
  : list (Z * Z * list Z) :=
  map (fun pd => (hd 0 (fst pd), Py.len (fst pd), snd pd)) files.

(** The tree with the one file [f], which holds ["aaaaa"]. *)
Definition five_a : AssetSource :=
  {| listing := [Py.str "f"]; contents := fun _ => Py.str "aaaaa" |}.

(** What raw deflate at the default level gives for ["aaaaa"]: five
    bytes again. *)
Definition five_a_deflated : list Z := [75; 76; 4; 2; 0].

(** The files [unpack] leaves, in the order written, and its error. *)
Definition result_of (r : option outcome)
  : option (list (Z * Z * list Z) * option error) :=
  option_map (fun o => (summary (rev (written (fst o))), snd o)) r.

(** What the unpacking of a tree should do, path by path: the directory
    of the path is made, and a path that is no directory is written with
    the contents the source has for it. *)
Definition unpacked_ops (src : AssetSource) (paths : list (list Z))
  : list sink_op :=
  flat_map (fun path =>
              MakeDirs (dirname path)
              :: (if Py.endswith path slash then []
                  else [WriteFile path (contents src path)]))
           paths.

(** The compressor gives back every file of the source, and no stream
    that is as long as its file. *)
Definition deflate_fits (deflate : list Z -> list Z)
  (inflate : list Z -> option (list Z)) (src : AssetSource) : Prop :=
  forall path,
    In path (listing src) -> Py.endswith path slash = false ->
    inflate (deflate (contents src path)) = Some (contents src path)
    /\ Py.len (deflate (contents src path)) <> Py.len (contents src path).

(** A packed string table with two names, ["ab"] written out and ["ac"]
    as one character of the name before it and a ["c"], and an entry
    that names an offset of it. *)
Definition packed_sample : list Z := [149; 5; 0; 57; 120; 1].

Definition entry_at (offset : Z) : TOCEntry :=
  {| nameOffset := offset; fileOffset := 0; uncompressedSize := 0;
     compressedSize := 0; filepath := [] |}.

(** A packed string table with two names: ["abcde"] written out, at
    offset 0, and at offset 5 the groups 62, 31, 26, 27 and the closing
    0: a first symbol of 56 or more, a second symbol below 32, and the
    characters ["fg"]. *)
Definition short_prefix_sample : list Z :=
  [149; 117; 97; 25; 0; 254; 167; 109; 0].

(** An operation that names no path below the output directory: it is
    on the output directory itself. *)
Definition at_root (op : sink_op) : Prop :=
  match op with
  | MakeDirs dirpath => dirpath = []
  | WriteFile path _ => path = []
  end.

(** The byte of the table at an index, 0 past its end, and the bytes
    from [offset] on as one number, the first byte the lowest. *)
Definition byte_at (table : list Z) (i : nat) : Z := nth i table 0.

Definition stream (table : list Z) (offset : Z) : Z :=
  Py.int_from_bytes (skipn (Z.to_nat offset) table).

(** What holds before turn [k] of the loop started at [offset], once [v]
    bytes have been read or found missing: the bits carried, the byte they
    are from, and the position, which no longer moves at the end of the
    table. *)
Definition before_turn (table : list Z) (offset : Z) (k : nat)
  (st : bitstate) : Prop :=
  exists v : nat,
    8 * Z.of_nat v - remainingBits st = 6 * Z.of_nat k
    /\ In (remainingBits st) [0; 2; 4; 6]
    /\ is_byte (lastValue st)
    /\ (remainingBits st <> 0 ->
        (1 <= v)%nat
        /\ lastValue st = byte_at table (Z.to_nat offset + v - 1))
    /\ (pos st = (Z.to_nat offset + v)%nat
        \/ (length table <= pos st <= Z.to_nat offset + v)%nat).

(** ** The walk of [pack] *)

(** [s.replace(a, b)] for one-character [a] and [b]. *)
Definition replace (a b : Z) (s : list Z) : list Z :=
  map (fun c => if c =? a then b else c) s.

(** The code of the backslash. *)
Definition backslash : Z := 92.

(** The body of the loop over [os.walk(assetPath, topdown=True)], for one
    triple [(root, dirs, files)] that the walk yields: the paths it
    appends to [stringTable]. *)
Definition walk_step (assetPath : list Z)
  (step : list Z * list (list Z) * list (list Z)) : list (list Z) :=
  let '(root0, dirs, files) := step in
  let root := replace backslash slash
                (skipn (length assetPath) root0) in
  map (fun dir =>
         if negb (Py.eqb root []) then root ++ slash :: dir ++ [slash]
         else dir ++ [slash]) dirs
  ++ map (fun filepath =>
            if negb (Py.eqb root []) then root ++ slash :: filepath
            else replace backslash slash (replace backslash slash filepath))
         files.

(** [stringTable] after the loop, before it is sorted. *)
Definition walk_paths (assetPath : list Z)
  (steps : list (list Z * list (list Z) * list (list Z)))
  : list (list Z) :=
  flat_map (walk_step assetPath) steps.

(** ** The command line *)

(** What ends the [try] block of the script with an exception. *)
Inductive failure : Type :=
| IndexError                    (* sys.argv is too short *)
| OpenError                     (* open(sys.argv[2], "rb") raises *)
| Raised (e : error)            (* unpack raises *)
| StructError.                  (* struct.pack raises in pack *)

(** What the script has done when it ends: the count it has warned
    with, what [unpack] did to the output directory, the file [pack]
    wrote (its path and its bytes), and the exception it prints, if any,
    in place of "File successfully (un)packed!". *)
Record run : Type := {
  warned : option Z;
  unpacked : list sink_op;
  packed : option (list Z * list Z);
  printed : option failure
}.

Definition nothing_done (f : option failure) : run :=
  {| warned := None; unpacked := []; packed := None; printed := f |}.

Section Main.

(** [str.lower], the files that can be opened for reading, the
    directories that exist, the tree under an asset path, [zlib], and the
    bound on the turns of the loops of [unpack]. *)
Variable lower : list Z -> list Z.
Variable open_rb : list Z -> option (list Z).
Variable exists_dir : list Z -> bool.
Variable tree : list Z -> AssetSource.
Variable deflate : list Z -> list Z.
Variable inflate : list Z -> option (list Z).
Variable fuel : nat.

(** [file.seek(4)] and [int.from_bytes(file.read(4), 'little')]. *)
Definition announced (file : list Z) : Z :=
  fst ((seek 4 ;;; read_int) file O).

(** The call of [pack] by the script, with a sink that takes every
    file. *)
Definition run_pack (assets output : list Z) (compress : bool) : run :=
  match pack deflate (tree assets) compress with
  | Some bytes =>
      {| warned := None; unpacked := []; packed := Some (output, bytes);
         printed := None |}
  | None => nothing_done (Some StructError)
  end.

(** The script, from [sys.argv]; [None] when [unpack] does not return. *)
Definition main (argv : list (list Z)) : option run :=
  match nth_error argv 1 with
  | None => Some (nothing_done (Some IndexError))
  | Some command =>
      if Py.eqb (lower command) (Py.str "unpack") then
        match nth_error argv 2 with
        | None => Some (nothing_done (Some IndexError))
        | Some archive =>
            match open_rb archive with
            | None => Some (nothing_done (Some OpenError))
            | Some file =>
                match nth_error argv 3 with
                | None =>
                    Some {| warned := Some (announced file); unpacked := [];
                            packed := None; printed := Some IndexError |}
                | Some outputDirectory =>
                    match unpack inflate fuel file
                            (exists_dir outputDirectory) with
                    | None => None
                    | Some (ops, e) =>
                        Some {| warned := Some (announced file);
                                unpacked := ops; packed := None;
                                printed := option_map Raised e |}
                    end
                end
            end
        end
      else if Py.eqb (lower command) (Py.str "pack") then
        if (Py.len argv =? 4) then
          match nth_error argv 2, nth_error argv 3 with
          | Some assets, Some output => Some (run_pack assets output false)
          | _, _ => Some (nothing_done (Some IndexError))
          end
        else if (Py.len argv =? 5)
                && match nth_error argv 4 with
                   | Some flag => Py.eqb flag (Py.str "compress")
                   | None => false
                   end then
          match nth_error argv 2, nth_error argv 3 with
          | Some assets, Some output => Some (run_pack assets output true)
          | _, _ => Some (nothing_done (Some IndexError))
          end
        else Some (nothing_done None)
      else Some (nothing_done None)
  end.

End Main.

(** A value [struct.pack] takes for the format "I", and an entry whose
    four values are such. *)
Definition u32 (v : Z) : Prop := 0 <= v < 2 ^ 32.

Definition fits (e : TOCEntry) : Prop :=
  u32 (nameOffset e) /\ u32 (fileOffset e)
  /\ u32 (uncompressedSize e) /\ u32 (compressedSize e).

(** The bytes of the file that [file.seek(entry.fileOffset)] and
    [file.read(entry.compressedSize)] give: those from the offset on, as
    many as the size says or as the file still has. *)
Definition stored (file : list Z) (e : TOCEntry) : list Z :=
  firstn (Z.to_nat (compressedSize e)) (skipn (Z.to_nat (fileOffset e)) file).

(** The order of the paths: [a] is not above [b]. *)
Definition path_le (a b : list Z) : Prop := Py.leb a b = true.

(** The three values of an entry that depend on the files fit in 32
    bits. *)
Definition small (e : TOCEntry) : Prop :=
  fileOffset e < 2 ^ 32 /\ uncompressedSize e < 2 ^ 32
  /\ compressedSize e < 2 ^ 32.

(** The 47 characters a symbol can stand for: [BASE64CHARSET] without
    its zero character. *)
Definition alphabet : list Z := tl BASE64CHARSET.

(** The states the loop can be in: 0, 2, 4 or 6 bits of the last byte
    are still to be used. *)
Definition wf_state (st : bitstate) : Prop :=
  In (remainingBits st) [0; 2; 4; 6] /\ is_byte (lastValue st).

(** What bounds the turns left: the bytes not yet read, the turn that
    reads nothing, and the bits still carried at the end of the table. *)
Definition turns_left (table : list Z) (st : bitstate) : nat :=
  (4 * (length table - pos st)
   + (if (remainingBits st =? 6)%Z then 1 else 0)
   + (if (lastValue st =? 0)%Z then 0 else 2))%nat.

(** * Properties *)

(** ** Arithmetic of the bit operations *)

Lemma testbit_small (y r n : Z) :
  0 <= y < 2 ^ r -> r <= n -> Z.testbit y n = false.
Proof.
  intros [Hy0 Hy] Hn.
  destruct (Z.eq_dec y 0) as [->|Hne]; [apply Z.bits_0|].
  apply Z.bits_above_log2; [lia|].
  assert (Z.log2 y < r) by (apply Z.log2_lt_pow2; lia).
  lia.
Qed.

Lemma lor_shiftl_low (x y r : Z) :
  0 <= r -> 0 <= y < 2 ^ r -> Z.lor (Z.shiftl x r) y = x * 2 ^ r + y.
Proof.
  intros Hr Hy.
  rewrite Z.shiftl_mul_pow2 by lia.
  assert (Hland : Z.land (x * 2 ^ r) y = 0).
  { apply Z.bits_inj'; intros n Hn.
    rewrite Z.land_spec, Z.bits_0.
    destruct (Z_lt_le_dec n r) as [Hlt|Hge].
    - rewrite Z.mul_pow2_bits_low by lia. reflexivity.
    - rewrite (testbit_small y r n) by lia. apply andb_false_r. }
  pose proof (Z.add_lor_land (x * 2 ^ r) y) as H.
  rewrite Hland in H. lia.
Qed.

Lemma land_mask (b k : Z) : 0 <= k -> Z.land b (2 ^ k - 1) = b mod 2 ^ k.
Proof.
  intros Hk. rewrite <- Z.land_ones by lia.
  f_equal. rewrite Z.ones_equiv. lia.
Qed.

Lemma carry_small (last r : Z) :
  is_byte last -> 0 <= r <= 8 -> 0 <= last / 2 ^ (8 - r) < 2 ^ r.
Proof.
  intros [H0 H1] Hr. split.
  - apply Z.div_pos; [lia | apply Z.pow_pos_nonneg; lia].
  - apply Z.div_lt_upper_bound; [apply Z.pow_pos_nonneg; lia|].
    rewrite <- Z.pow_add_r by lia.
    replace (8 - r + r) with 8 by lia. exact H1.
Qed.

(** ** One turn of the bit loop *)

Lemma next_group_carry (table : list Z) (st : bitstate) :
  remainingBits st = 6 ->
  next_group table st
  = (Z.shiftr (lastValue st) 2,
     {| pos := pos st; remainingBits := 0; lastValue := 0 |}).
Proof.
  intros Hr. unfold next_group. rewrite Hr. simpl negb. cbv iota.
  rewrite Z.land_0_l, Z.shiftl_0_l, Z.lor_0_l. reflexivity.
Qed.

Lemma next_group_read (table : list Z) (st : bitstate) (b : Z) :
  remainingBits st <> 6 ->
  nth_error table (pos st) = Some b ->
  next_group table st
  = (Z.lor (Z.shiftl (Z.land b (2 ^ (6 - remainingBits st) - 1))
                     (remainingBits st))
           (Z.shiftr (lastValue st) (8 - remainingBits st)),
     {| pos := S (pos st);
        remainingBits := 8 - (6 - remainingBits st);
        lastValue := b |}).
Proof.
  intros Hr Hb. unfold next_group, read_byte.
  apply Z.eqb_neq in Hr. rewrite Hr, Hb. reflexivity.
Qed.

Lemma next_group_end (table : list Z) (st : bitstate) :
  remainingBits st <> 6 ->
  nth_error table (pos st) = None ->
  next_group table st
  = (Z.shiftr (lastValue st) (8 - remainingBits st),
     {| pos := pos st;
        remainingBits := 8 - (6 - remainingBits st);
        lastValue := 0 |}).
Proof.
  intros Hr Hb. unfold next_group, read_byte.
  apply Z.eqb_neq in Hr. rewrite Hr, Hb. simpl negb. cbv iota.
  rewrite Z.land_0_l, Z.shiftl_0_l, Z.lor_0_l. reflexivity.
Qed.

Lemma nth_error_byte (table : list Z) (p : nat) (b : Z) :
  Forall is_byte table -> nth_error table p = Some b -> is_byte b.
Proof.
  intros Ht Hb. rewrite Forall_forall in Ht.
  apply Ht. eapply nth_error_In; eauto.
Qed.

(** ** The loop ends *)

Lemma turns_left_decreases (table : list Z) (st : bitstate) :
  fst (next_group table st) <> 0 ->
  (turns_left table (snd (next_group table st)) < turns_left table st)%nat.
Proof.
  intros Hg. unfold turns_left.
  destruct (Z.eq_dec (remainingBits st) 6) as [Hr|Hr].
  - rewrite next_group_carry in * by assumption.
    cbn [fst snd pos remainingBits lastValue].
    rewrite Hr. change (6 =? 6) with true. change (0 =? 6) with false.
    change (0 =? 0) with true. destruct (lastValue st =? 0); lia.
  - destruct (nth_error table (pos st)) as [b|] eqn:Hb.
    + rewrite (next_group_read _ _ b) in * by assumption.
      cbn [fst snd pos remainingBits lastValue].
      assert (pos st < length table)%nat
        by (apply nth_error_Some; congruence).
      destruct (8 - (6 - remainingBits st) =? 6), (b =? 0),
        (remainingBits st =? 6), (lastValue st =? 0); lia.
    + rewrite next_group_end in * by assumption.
      cbn [fst snd pos remainingBits lastValue] in *.
      change (0 =? 0) with true.
      destruct (lastValue st =? 0) eqn:Hl.
      * apply Z.eqb_eq in Hl. rewrite Hl, Z.shiftr_0_l in Hg. congruence.
      * destruct (8 - (6 - remainingBits st) =? 6),
          (remainingBits st =? 6); lia.
Qed.

Lemma extract_loop_total (table : list Z) :
  forall (fuel : nat) (st : bitstate) (temp : list Z),
    (turns_left table st < fuel)%nat ->
    exists out, extract_loop fuel table st temp = Some out.
Proof.
  induction fuel as [|f IH]; intros st temp Hlt; [lia|].
  simpl. destruct (next_group table st) as [g st'] eqn:E.
  destruct (g =? 0) eqn:Hg; [eauto|].
  apply IH. apply Z.eqb_neq in Hg.
  pose proof (turns_left_decreases table st) as Hd.
  rewrite E in Hd. simpl in Hd. specialize (Hd Hg). lia.
Qed.

Lemma enough_is_enough (table : list Z) (offset : Z) :
  (turns_left table (start offset) < enough table)%nat.
Proof. unfold turns_left, enough, start. simpl. lia. Qed.

(** The loop returns the groups up to and with the first 0. *)
Lemma extract_loop_groups (table : list Z) :
  forall (fuel : nat) (st : bitstate) (temp out : list Z),
    extract_loop fuel table st temp = Some out ->
    exists n, (n < fuel)%nat
      /\ out = temp ++ groups (S n) table st
      /\ nth n (groups (S n) table st) 1 = 0
      /\ forall k, (k < n)%nat -> nth k (groups (S n) table st) 0 <> 0.
Proof.
  induction fuel as [|f IH]; intros st temp out H; [discriminate|].
  simpl in H. destruct (next_group table st) as [g st'] eqn:E.
  destruct (g =? 0) eqn:Hg.
  - injection H as <-. apply Z.eqb_eq in Hg. exists O.
    simpl. rewrite E. simpl. repeat split; try lia.
  - apply IH in H. destruct H as (n & Hn & Hout & Hlast & Hbefore).
    exists (S n). split; [lia|].
    change (groups (S (S n)) table st)
      with (fst (next_group table st)
            :: groups (S n) table (snd (next_group table st))).
    rewrite E. simpl fst. simpl snd. split; [|split].
    + rewrite Hout, <- app_assoc. reflexivity.
    + exact Hlast.
    + intros [|k] Hk; [apply Z.eqb_neq; exact Hg|].
      apply Hbefore. lia.
Qed.

Lemma start_wf (offset : Z) : wf_state (start offset).
Proof. split; [simpl; auto | unfold is_byte; simpl; lia]. Qed.

(** One turn, in arithmetic: the three cases, and what they keep. *)
Lemma next_group_cases (table : list Z) (st : bitstate) :
  Forall is_byte table -> wf_state st ->
  let r := remainingBits st in
  let g := fst (next_group table st) in
  let st' := snd (next_group table st) in
  (r = 6 ->
     g = lastValue st / 2 ^ 2 /\ pos st' = pos st
     /\ remainingBits st' = 0 /\ lastValue st' = 0)
  /\ (r <> 6 -> forall b, nth_error table (pos st) = Some b ->
        g = (b mod 2 ^ (6 - r)) * 2 ^ r + lastValue st / 2 ^ (8 - r)
        /\ pos st' = S (pos st)
        /\ remainingBits st' = 8 - (6 - r) /\ lastValue st' = b
        /\ lastValue st' / 2 ^ (8 - remainingBits st') = b / 2 ^ (6 - r))
  /\ (r <> 6 -> nth_error table (pos st) = None ->
        g = lastValue st / 2 ^ (8 - r) /\ pos st' = pos st
        /\ remainingBits st' = 8 - (6 - r) /\ lastValue st' = 0)
  /\ 0 <= g < 64 /\ wf_state st'.
Proof.
  intros Ht [Hr Hl] r g st'. subst r g st'.
  assert (Hr' : 0 <= remainingBits st <= 6)
    by (simpl in Hr; intuition lia).
  pose proof (carry_small (lastValue st) (remainingBits st) Hl
                ltac:(lia)) as Hc.
  assert (Hp : 2 ^ remainingBits st <= 64).
  { simpl in Hr.
    destruct Hr as [R|[R|[R|[R|[]]]]]; rewrite <- R; simpl; lia. }
  unfold wf_state, is_byte.
  destruct (Z.eq_dec (remainingBits st) 6) as [E|E].
  - rewrite next_group_carry by assumption.
    cbn [fst snd pos remainingBits lastValue].
    rewrite Z.shiftr_div_pow2 by lia.
    rewrite E in Hc. change (8 - 6) with 2 in Hc. change (2 ^ 6) with 64 in Hc.
    repeat split; try tauto; try lia. simpl; auto.
  - destruct (nth_error table (pos st)) as [b|] eqn:Hb.
    + rewrite (next_group_read _ _ b) by assumption.
      cbn [fst snd pos remainingBits lastValue].
      pose proof (nth_error_byte _ _ _ Ht Hb) as Hbyte.
      rewrite land_mask, Z.shiftr_div_pow2 by lia.
      rewrite lor_shiftl_low by (try lia; exact Hc).
      assert (Hg : 0 <= b mod 2 ^ (6 - remainingBits st)
                        * 2 ^ remainingBits st
                        + lastValue st / 2 ^ (8 - remainingBits st) < 64).
      { assert (Hm : 0 <= b mod 2 ^ (6 - remainingBits st)
                     < 2 ^ (6 - remainingBits st))
          by (apply Z.mod_pos_bound, Z.pow_pos_nonneg; lia).
        simpl in Hr.
        destruct Hr as [R|[R|[R|[R|[]]]]]; rewrite <- R in *;
          simpl in *; lia. }
      split; [tauto|]. split.
      { intros _ b' Hb'. injection Hb' as <-.
        repeat split. f_equal. f_equal. lia. }
      split; [discriminate|]. split; [exact Hg|]. split.
      { simpl in Hr.
        destruct Hr as [R|[R|[R|[R|[]]]]]; try lia; rewrite <- R;
          simpl; auto. }
      exact Hbyte.
    + rewrite next_group_end by assumption.
      cbn [fst snd pos remainingBits lastValue].
      rewrite Z.shiftr_div_pow2 by lia.
      split; [tauto|]. split; [discriminate|]. split; [auto|].
      split; [lia|]. split; [|lia].
      simpl in Hr.
      destruct Hr as [R|[R|[R|[R|[]]]]]; try lia; rewrite <- R;
        simpl; auto.
Qed.

(** The loop from the start of an entry: it ends, and returns the groups
    up to and with the first that is 0. *)
Lemma extract_spec (table : list Z) (offset : Z) (fuel : nat) :
  (enough table <= fuel)%nat ->
  exists n,
    extract fuel table offset
    = Some (groups (S n) table (start offset))
    /\ nth n (groups (S n) table (start offset)) 1 = 0
    /\ forall k, (k < n)%nat ->
         nth k (groups (S n) table (start offset)) 0 <> 0.
Proof.
  intros Hf.
  destruct (extract_loop_total table fuel (start offset) []) as [out Hout].
  { pose proof (enough_is_enough table offset). lia. }
  destruct (extract_loop_groups _ _ _ _ _ Hout) as (n & _ & E & H0 & Hk).
  exists n. unfold extract. rewrite Hout. simpl in E. subst out. auto.
Qed.

(** C2, as the code has it.  In a state with 6 bits carried, a turn
    emits those bits ([lastValue / 4]) and reads nothing.  In any other
    state it reads the next byte [b] if the table has one, emits the low
    [6 - r] bits of [b] above the [r] carried bits, and carries the rest
    of [b] with the count [8 - (6 - r)]; at the end of the table nothing is
    read, 0 stands for the byte, and the group is the carried bits alone.
    Every group is below 64.  From the start of an entry the loop always
    ends, within [enough table] turns, and returns the groups up to and
    with the first that is 0. *)
Theorem bit_extractor_turns (table : list Z) (offset : Z) (st : bitstate) :
  Forall is_byte table -> wf_state st ->
  let r := remainingBits st in
  let g := fst (next_group table st) in
  let st' := snd (next_group table st) in
  (r = 6 ->
     g = lastValue st / 2 ^ 2 /\ pos st' = pos st
     /\ remainingBits st' = 0 /\ lastValue st' = 0)
  /\ (r <> 6 -> forall b, nth_error table (pos st) = Some b ->
        g = (b mod 2 ^ (6 - r)) * 2 ^ r + lastValue st / 2 ^ (8 - r)
        /\ pos st' = S (pos st)
        /\ remainingBits st' = 8 - (6 - r) /\ lastValue st' = b
        /\ lastValue st' / 2 ^ (8 - remainingBits st') = b / 2 ^ (6 - r))
  /\ (r <> 6 -> nth_error table (pos st) = None ->
        g = lastValue st / 2 ^ (8 - r) /\ pos st' = pos st
        /\ remainingBits st' = 8 - (6 - r) /\ lastValue st' = 0)
  /\ 0 <= g < 64 /\ wf_state st'
  /\ wf_state (start offset)
  /\ forall fuel, (enough table <= fuel)%nat ->
     exists n,
       extract fuel table offset
       = Some (groups (S n) table (start offset))
       /\ nth n (groups (S n) table (start offset)) 1 = 0
       /\ forall k, (k < n)%nat ->
            nth k (groups (S n) table (start offset)) 0 <> 0.
Proof.
  intros Ht Hst r g st'.
  destruct (next_group_cases table st Ht Hst) as (H1 & H2 & H3 & H4 & H5).
  repeat (split; [assumption|]).
  split; [apply start_wf | intros fuel; apply extract_spec].
Qed.

(** The state after the first turn on the one-byte table [255]. *)
Lemma bit_extractor_turns_witness :
  Forall is_byte [255]
  /\ wf_state {| pos := 1; remainingBits := 2; lastValue := 255 |}
  /\ fst (next_group [255]
            {| pos := 1; remainingBits := 2; lastValue := 255 |}) = 3
  /\ extract (enough [255]) [255] 0 = Some [63; 3; 0].
Proof.
  assert (Ht : Forall is_byte [255])
    by (repeat constructor; unfold is_byte; lia).
  assert (Hw : wf_state {| pos := 1; remainingBits := 2; lastValue := 255 |})
    by (split; [simpl; auto | unfold is_byte; simpl; lia]).
  split; [exact Ht|]. split; [exact Hw|].
  destruct (bit_extractor_turns [255] 0 _ Ht Hw)
    as (_ & _ & Hend & _).
  split.
  - destruct (Hend ltac:(simpl; lia) eq_refl) as (Hg & _). exact Hg.
  - reflexivity.
Defined.

(** C2 as stated fails when the table ends inside an entry: on the
    one-byte table [255] the loop makes three turns; the second starts
    with 2 carried bits, not 6, and emits the group 3 without reading a
    byte.  So it is not true that every turn the loop makes outside the
    six-bit case reads a byte. *)
Lemma bit_extractor_reads_nothing_at_end :
  ~ (forall (table : list Z) (offset : Z) (temp : list Z) (k : nat),
       extract (enough table) table offset = Some temp ->
       (k < length temp)%nat ->
       let st := state_after k table (start offset) in
       remainingBits st <> 6 ->
       pos (snd (next_group table st)) = S (pos st)).
Proof.
  intros H.
  specialize (H [255] 0 [63; 3; 0] 1%nat eq_refl ltac:(simpl; lia)).
  simpl in H. specialize (H ltac:(lia)). discriminate H.
Qed.

(** ** Paths of the packed string table *)

Lemma split_last {A} (d : A) :
  forall (n : nat) (l : list A),
    length l = S n -> l = firstn n l ++ [nth n l d].
Proof.
  induction n as [|n IH]; intros [|x l] Hl; try discriminate.
  - destruct l; [reflexivity | discriminate].
  - simpl. f_equal. apply IH. simpl in Hl. lia.
Qed.

Lemma groups_length (table : list Z) :
  forall n st, length (groups n table st) = n.
Proof. induction n; intros st; simpl; [reflexivity | f_equal; auto]. Qed.

(** The groups of an entry: symbols that are not 0, then the closing 0. *)
Lemma extract_symbols (table : list Z) (offset : Z) (fuel : nat) :
  (enough table <= fuel)%nat ->
  exists symbols,
    extract fuel table offset = Some (symbols ++ [0])
    /\ Forall (fun s => s <> 0) symbols.
Proof.
  intros Hf.
  destruct (extract_spec table offset fuel Hf) as (n & Hex & Hlast & Hbefore).
  set (l := groups (S n) table (start offset)) in *.
  assert (Hlen : length l = S n) by apply groups_length.
  exists (firstn n l). split.
  - rewrite Hex. f_equal.
    pose proof (split_last 1 n l Hlen) as Hs. rewrite Hlast in Hs. exact Hs.
  - apply Forall_forall. intros s Hs.
    apply (In_nth _ _ 0) in Hs. destruct Hs as (k & Hk & <-).
    rewrite length_firstn in Hk.
    rewrite nth_firstn.
    destruct (Nat.ltb_spec k n); [apply Hbefore|]; lia.
Qed.

Lemma len_app_one {A} (l : list A) (x : A) : Py.len (l ++ [x]) = Py.len l + 1.
Proof. unfold Py.len. rewrite length_app. simpl. lia. Qed.

Lemma slice_all_but_last {A} (l : list A) (x : A) :
  Py.slice (l ++ [x]) 0 (-1) = l.
Proof.
  unfold Py.slice. rewrite len_app_one. unfold Py.clamp, Py.len. simpl.
  replace (Z.max 0 (Z.of_nat (length l) + 1 + -1)) with (Z.of_nat (length l))
    by lia.
  replace (Z.min 0 (Z.of_nat (length l) + 1)) with 0 by lia.
  rewrite Z.sub_0_r, Nat2Z.id. simpl.
  rewrite firstn_app, firstn_all, Nat.sub_diag. simpl. apply app_nil_r.
Qed.

Lemma slice_from_2_but_last {A} (l : list A) (x : A) :
  Py.slice (l ++ [x]) 2 (-1) = skipn 2 l.
Proof.
  unfold Py.slice. rewrite len_app_one. unfold Py.clamp, Py.len. simpl.
  replace (Z.max 0 (Z.of_nat (length l) + 1 + -1)) with (Z.of_nat (length l))
    by lia.
  destruct l as [|a [|b l]]; try reflexivity.
  replace (Z.min 2 (Z.of_nat (length (a :: b :: l)) + 1)) with 2
    by (simpl length; lia).
  replace (Z.to_nat (Z.of_nat (length (a :: b :: l)) - 2)) with (length l)
    by (simpl length; lia).
  simpl. rewrite firstn_app, firstn_all, Nat.sub_diag. simpl. apply app_nil_r.
Qed.

Lemma item_0_symbols (symbols : list Z) :
  Py.item (symbols ++ [0]) 0 = nth 0 symbols 0.
Proof. destruct symbols; reflexivity. Qed.

Lemma item_1_symbols (symbols : list Z) :
  Py.item (symbols ++ [0]) 1 = nth 1 symbols 0.
Proof. destruct symbols as [|a [|b l]]; reflexivity. Qed.

(** [reconstruct] on the symbols of an entry. *)
Lemma reconstruct_symbols (prevName symbols : list Z) :
  reconstruct prevName (symbols ++ [0])
  = if nth 0 symbols 0 <? 56 then literal symbols
    else Py.slice prevName 0
           ((nth 0 symbols 0 - 0x38) + Z.shiftl (nth 1 symbols 0 - 0x20) 3)
         ++ literal (skipn 2 symbols).
Proof.
  unfold reconstruct.
  rewrite item_0_symbols, item_1_symbols, slice_all_but_last,
    slice_from_2_but_last.
  reflexivity.
Qed.

(** [prevName[:L]] is the first [L] characters when [L] is not negative
    (all of [prevName] when it is shorter). *)
Lemma slice_prefix {A} (l : list A) (L : Z) :
  0 <= L -> Py.slice l 0 L = firstn (Z.to_nat L) l.
Proof.
  intros HL. unfold Py.slice, Py.clamp.
  destruct (L <? 0) eqn:E; [apply Z.ltb_lt in E; lia|].
  change (0 <? 0) with false. cbv iota.
  replace (Z.min 0 (Py.len l)) with 0 by (unfold Py.len; lia).
  rewrite Z.sub_0_r. simpl skipn.
  destruct (Z_le_gt_dec L (Py.len l)).
  - rewrite Z.min_l by lia. reflexivity.
  - rewrite Z.min_r by lia. unfold Py.len in *. rewrite Nat2Z.id.
    rewrite firstn_all. symmetry. apply firstn_all2. lia.
Qed.

(** [prevName[:L]] for a negative [L] is [prevName] without its last
    [-L] characters (empty when [prevName] has no more than that). *)
Lemma slice_negative {A} (l : list A) (L : Z) :
  L < 0 -> Py.slice l 0 L = firstn (length l - Z.to_nat (- L)) l.
Proof.
  intros HL. unfold Py.slice, Py.clamp.
  destruct (L <? 0) eqn:E; [|apply Z.ltb_ge in E; lia].
  change (0 <? 0) with false. cbv iota.
  replace (Z.min 0 (Py.len l)) with 0 by (unfold Py.len; lia).
  rewrite Z.sub_0_r. simpl skipn. f_equal. unfold Py.len. lia.
Qed.

Lemma decode_packed_spec (table : list Z) (fuel : nat) :
  (enough table <= fuel)%nat ->
  forall (entries : list TOCEntry) (first : list Z),
  exists done,
    decode_packed fuel table entries first = Some done
    /\ length done = length entries
    /\ forall i entry, nth_error entries i = Some entry ->
       exists symbols,
         extract fuel table (nameOffset entry)
         = Some (symbols ++ [0])
         /\ Forall (fun s => s <> 0) symbols
         /\ nth_error done i
            = Some (set_filepath entry
                      (reconstruct (path_before first done i)
                                   (symbols ++ [0]))).
Proof.
  intros Hf. induction entries as [|entry rest IH]; intros first.
  - exists []. repeat split. intros [|i] e H; discriminate H.
  - destruct (extract_symbols table (nameOffset entry) fuel Hf)
      as (symbols & Hex & Hnz).
    destruct (IH (reconstruct first (symbols ++ [0])))
      as (done & Hdone & Hlen & Hnth).
    exists (set_filepath entry (reconstruct first (symbols ++ [0])) :: done).
    split; [simpl; rewrite Hex, Hdone; reflexivity|].
    split; [simpl; congruence|].
    intros [|i] e He; simpl in He.
    + injection He as <-. exists symbols. auto.
    + destruct (Hnth i e He) as (syms & Hex' & Hnz' & Hi).
      exists syms. repeat split; try assumption.
      simpl nth_error. rewrite Hi. do 3 f_equal.
      destruct i; reflexivity.
Qed.

(** C3, as the code has it.  The "Dave" branch always ends, within
    [enough table] turns of each of its loops.  The entry at index [i]
    has the symbols [symbols] (its groups without the closing 0).  If the
    first symbol is below 56, its path is the characters of the symbols
    below 48, in order.  Otherwise its path is [prev[0:L]] followed by
    the characters of the symbols below 48 of [symbols[2:]], where [prev]
    is the path decoded for the entry at index [i - 1] (empty for the
    first entry) and [L = (symbols[0] - 0x38) + ((symbols[1] - 0x20) << 3)],
    with 0 for a second symbol that is not there.  [prev[0:L]] is
    Python's slice: the first [L] characters of [prev] (all of it when it
    is shorter) when [0 <= L], and [prev] without its last [-L]
    characters (nothing when it is no longer than that) when [L < 0]. *)
Theorem packed_paths_in_toc_order (table : list Z) (entries : list TOCEntry)
  (fuel : nat) :
  (enough table <= fuel)%nat ->
  exists done,
    decode_packed fuel table entries [] = Some done
    /\ length done = length entries
    /\ forall i entry, nth_error entries i = Some entry ->
       exists symbols,
         extract fuel table (nameOffset entry)
         = Some (symbols ++ [0])
         /\ Forall (fun s => s <> 0) symbols
         /\ let prev := path_before [] done i in
            let L := (nth 0 symbols 0 - 0x38)
                     + Z.shiftl (nth 1 symbols 0 - 0x20) 3 in
            nth_error done i
            = Some (set_filepath entry
                      (if nth 0 symbols 0 <? 56 then literal symbols
                       else Py.slice prev 0 L ++ literal (skipn 2 symbols)))
            /\ L = (nth 0 symbols 0 - 56) + (nth 1 symbols 0 - 32) * 8
            /\ (0 <= L -> Py.slice prev 0 L = firstn (Z.to_nat L) prev)
            /\ (L < 0 ->
                Py.slice prev 0 L
                = firstn (length prev - Z.to_nat (- L)) prev).
Proof.
  intros Hf.
  destruct (decode_packed_spec table fuel Hf entries [])
    as (done & Hd & Hlen & Hnth).
  exists done. split; [exact Hd|]. split; [exact Hlen|].
  intros i entry He.
  destruct (Hnth i entry He) as (symbols & Hex & Hnz & Hi).
  exists symbols. split; [exact Hex|]. split; [exact Hnz|].
  cbv zeta. split; [|split; [|split]].
  - rewrite Hi, reconstruct_symbols. reflexivity.
  - rewrite Z.shiftl_mul_pow2 by lia. reflexivity.
  - apply slice_prefix.
  - apply slice_negative.
Qed.

(** The two names of the sample, in the order of their entries. *)
Lemma packed_paths_in_toc_order_witness :
  (enough packed_sample <= 28)%nat
  /\ exists done,
       decode_packed 28 packed_sample [entry_at 0; entry_at 3] [] = Some done
       /\ map filepath done = [Py.str "ab"; Py.str "ac"].
Proof.
  assert (Hf : (enough packed_sample <= 28)%nat) by (vm_compute; lia).
  split; [exact Hf|].
  destruct (packed_paths_in_toc_order packed_sample [entry_at 0; entry_at 3]
              28 Hf) as (done & Hd & _).
  exists done. split; [exact Hd|].
  vm_compute in Hd. injection Hd as <-. reflexivity.
Defined.

(** C3 as stated fails for a second symbol below 32: the symbols 62, 31,
    26, 27 after the name ["abcde"] give [L = -2], and the path decoded
    is ["abcfg"], the name before without its last two characters and
    then ["fg"].  It is not the first [L] characters of the name before,
    which for a negative [L] can only be none, and then ["fg"]. *)
Lemma packed_prefix_of_negative_length :
  extract (enough short_prefix_sample) short_prefix_sample 0
  = Some [21; 22; 23; 24; 25; 0]
  /\ extract (enough short_prefix_sample) short_prefix_sample 5
     = Some [62; 31; 26; 27; 0]
  /\ (62 - 0x38) + Z.shiftl (31 - 0x20) 3 = -2
  /\ option_map (map filepath)
       (decode_packed (enough short_prefix_sample) short_prefix_sample
          [entry_at 0; entry_at 5] [])
     = Some [Py.str "abcde"; Py.str "abcfg"]
  /\ Py.str "abcfg"
     <> firstn (Z.to_nat (-2)) (Py.str "abcde") ++ literal [26; 27]
  /\ firstn (Z.to_nat (-2)) (Py.str "abcde") ++ literal [26; 27]
     = Py.str "fg".
Proof.
  repeat split; try (vm_compute; reflexivity).
  vm_compute. discriminate.
Qed.

(** Both ways of writing a name, and the order of the entries: read the
    other way round, the second name has no name before it to take a
    character from. *)
Example packed_paths_example :
  extract (enough packed_sample) packed_sample 0 = Some [21; 22; 0]
  /\ extract (enough packed_sample) packed_sample 3 = Some [57; 32; 23; 0]
  /\ option_map (map filepath)
       (decode_packed (enough packed_sample) packed_sample
          [entry_at 0; entry_at 3] [])
     = Some [Py.str "ab"; Py.str "ac"]
  /\ option_map (map filepath)
       (decode_packed (enough packed_sample) packed_sample
          [entry_at 3; entry_at 0] [])
     = Some [Py.str "c"; Py.str "ab"].
Proof. repeat split. Qed.

(** ** The raw string table *)

Lemma raw_loop_zero_ahead (table : list Z) :
  forall (fuel p : nat) (acc name : list Z),
    raw_loop fuel table p acc = Some name ->
    exists j, (p <= j)%nat /\ nth_error table j = Some 0.
Proof.
  induction fuel as [|f IH]; intros p acc name H; [discriminate|].
  simpl in H. destruct (nth_error table p) as [b|] eqn:Hb.
  - destruct (b =? 0) eqn:E.
    + apply Z.eqb_eq in E. subst b. exists p. split; [lia | exact Hb].
    + apply IH in H. destruct H as (j & Hj & Hz).
      exists j. split; [lia | exact Hz].
  - apply IH in H. exact H.
Qed.

Lemma raw_loop_reaches_zero (table : list Z) :
  forall (d p : nat) (acc : list Z),
    nth_error table (p + d) = Some 0 ->
    exists name, raw_loop (S d) table p acc = Some name.
Proof.
  induction d as [|d IH]; intros p acc Hz.
  - rewrite Nat.add_0_r in Hz. simpl. rewrite Hz. simpl. eauto.
  - assert (Hp : (p < length table)%nat).
    { assert (p + S d < length table)%nat
        by (apply nth_error_Some; congruence). lia. }
    apply nth_error_Some in Hp.
    change (raw_loop (S (S d)) table p acc)
      with (match nth_error table p with
            | Some byte =>
                if byte =? 0 then Some acc
                else raw_loop (S d) table (S p) (acc ++ [byte])
            | None => raw_loop (S d) table p acc
            end).
    destruct (nth_error table p) as [b|]; [|congruence].
    destruct (b =? 0); [eauto|].
    apply IH. rewrite <- Hz. f_equal. lia.
Qed.

(** The loop on a table that holds [name] and a zero byte after it. *)
Lemma raw_loop_reads_name :
  forall (name pre post acc : list Z) (fuel : nat),
    Forall (fun b => b <> 0) name ->
    (length name < fuel)%nat ->
    raw_loop fuel (pre ++ name ++ 0 :: post) (length pre) acc
    = Some (acc ++ name).
Proof.
  induction name as [|b name IH]; intros pre post acc fuel Hnz Hf;
    destruct fuel as [|f]; try (simpl in Hf; lia).
  - simpl. rewrite nth_error_app2, Nat.sub_diag by lia. simpl.
    rewrite app_nil_r. reflexivity.
  - simpl. rewrite nth_error_app2, Nat.sub_diag by lia. simpl.
    inversion Hnz as [|? ? Hb Hrest]; subst.
    apply Z.eqb_neq in Hb. rewrite Hb.
    replace (pre ++ b :: name ++ 0 :: post)
      with ((pre ++ [b]) ++ name ++ 0 :: post)
      by (rewrite <- app_assoc; reflexivity).
    replace (S (length pre)) with (length (pre ++ [b]))
      by (rewrite length_app; simpl; lia).
    rewrite IH by (try assumption; simpl in Hf; lia).
    rewrite <- app_assoc. reflexivity.
Qed.

(** C10.  The loop of the "DAVE" branch ends, for an offset, exactly when
    the string table holds a zero byte at or after the offset.  Without
    one the loop never ends, as for an offset at or past the end of the
    table, where every read returns the empty string. *)
Theorem raw_decode_ends_iff_zero_ahead (table : list Z) (offset : Z) :
  ((exists fuel name, raw_decode fuel table offset = Some name)
   <-> (exists j, (Z.to_nat offset <= j)%nat /\ nth_error table j = Some 0))
  /\ ((forall j, (Z.to_nat offset <= j)%nat -> nth_error table j <> Some 0)
      -> forall fuel, raw_decode fuel table offset = None)
  /\ ((length table <= Z.to_nat offset)%nat
      -> forall fuel, raw_decode fuel table offset = None).
Proof.
  assert (Hnone :
    (forall j, (Z.to_nat offset <= j)%nat -> nth_error table j <> Some 0)
    -> forall fuel, raw_decode fuel table offset = None).
  { intros Hno fuel.
    destruct (raw_decode fuel table offset) as [name|] eqn:E; [|reflexivity].
    apply raw_loop_zero_ahead in E. destruct E as (j & Hj & Hz).
    exfalso. exact (Hno j Hj Hz). }
  split; [split|split].
  - intros (fuel & name & H). eapply raw_loop_zero_ahead. exact H.
  - intros (j & Hj & Hz).
    destruct (raw_loop_reaches_zero table (j - Z.to_nat offset)
                (Z.to_nat offset) []) as [name Hn].
    { rewrite <- Hz. f_equal. lia. }
    exists (S (j - Z.to_nat offset)), name. exact Hn.
  - exact Hnone.
  - intros Hlen. apply Hnone. intros j Hj Hz.
    assert (j < length table)%nat by (apply nth_error_Some; congruence).
    lia.
Qed.

(** Where the path at index [i] lies in the joined table. *)
Lemma join_at :
  forall (paths : list (list Z)) (i : nat) (path : list Z),
    nth_error paths i = Some path ->
    exists pre post,
      raw_encode paths = pre ++ path ++ post
      /\ Py.len pre = raw_offset paths i
      /\ ((S i < length paths)%nat -> exists tail, post = 0 :: tail)
      /\ (S i = length paths -> post = []).
Proof.
  unfold raw_encode, raw_offset.
  induction paths as [|p ps IH]; intros i path Hi; [destruct i; discriminate|].
  destruct i as [|i]; simpl in Hi.
  - injection Hi as ->. exists [].
    destruct ps as [|q ps].
    + exists []. simpl. rewrite app_nil_r.
      repeat split; try reflexivity. intros H; simpl in H; lia.
    + exists (0 :: Py.join 0 (q :: ps)).
      repeat split; try reflexivity; [eauto | intros H; simpl in H; lia].
  - destruct (IH i path Hi) as (pre & post & Hj & Hlen & Hmid & Hlast).
    destruct ps as [|q ps]; [destruct i; discriminate|].
    exists (p ++ 0 :: pre), post.
    change (Py.join 0 (p :: q :: ps)) with (p ++ 0 :: Py.join 0 (q :: ps)).
    rewrite Hj. split; [rewrite <- app_assoc; reflexivity|].
    split; [|split].
    + change (firstn (S i) (p :: q :: ps)) with (p :: firstn i (q :: ps)).
      unfold Py.sum_len1 in *. simpl fold_right. rewrite <- Hlen.
      unfold Py.len. rewrite length_app. simpl length. lia.
    + intros H. apply Hmid. simpl in *. lia.
    + intros H. apply Hlast. simpl in *. lia.
Qed.

Lemma len_nat {A} (l : list A) (z : Z) :
  Py.len l = z -> Z.to_nat z = length l.
Proof. unfold Py.len. intros <-. apply Nat2Z.id. Qed.

(** The table of [pack] ends in a zero byte when its length is no
    multiple of 0x800. *)
Lemma padded_begins_with_zero (x : list Z) :
  Py.len x mod PAD <> 0 ->
  exists tail, padded x = x ++ 0 :: tail.
Proof.
  intros H. unfold padded, Padding, Py.zeros.
  apply Z.eqb_neq in H. rewrite H.
  assert (Hm : 0 <= Py.len x mod PAD < PAD)
    by (apply Z.mod_pos_bound; reflexivity).
  apply Z.eqb_neq in H.
  destruct (Z.to_nat (PAD - Py.len x mod PAD)) as [|n] eqn:E; [lia|].
  exists (repeat 0 n). reflexivity.
Qed.

(** A path read from a table that has a zero byte after the joined
    paths. *)
Lemma raw_decode_closed (paths : list (list Z)) (i : nat) (path : list Z)
  (tail : list Z) (fuel : nat) :
  Forall (Forall (fun b => b <> 0)) paths ->
  nth_error paths i = Some path ->
  (length path < fuel)%nat ->
  raw_decode fuel (raw_encode paths ++ 0 :: tail) (raw_offset paths i)
  = Some path.
Proof.
  intros Hnz Hi Hf.
  assert (Hpath : Forall (fun b => b <> 0) path).
  { rewrite Forall_forall in Hnz. apply Hnz.
    eapply nth_error_In; eauto. }
  destruct (join_at paths i path Hi) as (pre & post & Hj & Hlen & Hmid & Hlast).
  apply len_nat in Hlen. unfold raw_decode. rewrite Hlen, Hj.
  destruct (Nat.eq_dec (S i) (length paths)) as [E|E].
  - rewrite (Hlast E), app_nil_r, <- app_assoc.
    apply (raw_loop_reads_name path pre tail [] fuel Hpath Hf).
  - assert (Hin : (i < length paths)%nat)
      by (apply nth_error_Some; congruence).
    destruct (Hmid ltac:(lia)) as [t ->].
    replace ((pre ++ path ++ 0 :: t) ++ 0 :: tail)
      with (pre ++ path ++ 0 :: (t ++ 0 :: tail))
      by (rewrite <- !app_assoc; reflexivity).
    apply (raw_loop_reads_name path pre _ [] fuel Hpath Hf).
Qed.

(** C4, as the code has it.  For paths without zero bytes, reading at
    [nameOffset_i] returns [path_i] from any string table that begins with
    the joined paths, for every [i] but the last; for the last path too
    when a zero byte follows the joined paths, as in the table [pack]
    writes whenever the length of the joined paths is no multiple of
    0x800.  In the joined paths alone, the read of the last path never
    ends. *)
Theorem raw_table_decode_encode (paths : list (list Z)) (i : nat)
  (path : list Z) :
  Forall (Forall (fun b => b <> 0)) paths ->
  nth_error paths i = Some path ->
  (forall rest fuel, (S i < length paths)%nat -> (length path < fuel)%nat ->
     raw_decode fuel (raw_encode paths ++ rest) (raw_offset paths i)
     = Some path)
  /\ (forall tail fuel, (length path < fuel)%nat ->
        raw_decode fuel (raw_encode paths ++ 0 :: tail) (raw_offset paths i)
        = Some path)
  /\ (forall fuel, Py.len (raw_encode paths) mod PAD <> 0 ->
        (length path < fuel)%nat ->
        raw_decode fuel (padded (raw_encode paths)) (raw_offset paths i)
        = Some path)
  /\ (S i = length paths ->
      forall fuel,
        raw_decode fuel (raw_encode paths) (raw_offset paths i) = None).
Proof.
  intros Hnz Hi.
  assert (Hpath : Forall (fun b => b <> 0) path).
  { rewrite Forall_forall in Hnz. apply Hnz.
    eapply nth_error_In; eauto. }
  split; [|split; [|split]].
  - intros rest fuel Hm Hf.
    destruct (join_at paths i path Hi) as (pre & post & Hj & Hlen & Hmid & _).
    apply len_nat in Hlen. unfold raw_decode. rewrite Hlen, Hj.
    destruct (Hmid Hm) as [t ->].
    replace ((pre ++ path ++ 0 :: t) ++ rest)
      with (pre ++ path ++ 0 :: (t ++ rest))
      by (rewrite <- !app_assoc; reflexivity).
    apply (raw_loop_reads_name path pre _ [] fuel Hpath Hf).
  - intros tail fuel Hf. apply raw_decode_closed; assumption.
  - intros fuel Hmod Hf.
    destruct (padded_begins_with_zero _ Hmod) as [tail ->].
    apply raw_decode_closed; assumption.
  - intros E fuel.
    destruct (join_at paths i path Hi) as (pre & post & Hj & Hlen & _ & Hlast).
    apply len_nat in Hlen. unfold raw_decode. rewrite Hlen, Hj.
    rewrite (Hlast E), app_nil_r.
    destruct (raw_loop fuel (pre ++ path) (length pre) []) as [name|] eqn:R;
      [|reflexivity].
    apply raw_loop_zero_ahead in R. destruct R as (j & Hge & Hzero).
    exfalso. rewrite nth_error_app2 in Hzero by lia.
    apply nth_error_In in Hzero.
    rewrite Forall_forall in Hpath. exact (Hpath 0 Hzero eq_refl).
Qed.

(** ** unpack *)

Lemma eqb_eq (a : list Z) : forall b, Py.eqb a b = true <-> a = b.
Proof.
  induction a as [|x a IH]; intros [|y b]; simpl; split; intros H;
    try reflexivity; try discriminate.
  - apply andb_true_iff in H. destruct H as [H1 H2].
    apply Z.eqb_eq in H1. apply IH in H2. congruence.
  - injection H as -> ->. rewrite Z.eqb_refl. simpl. apply IH. reflexivity.
Qed.

Lemma eqb_neq (a b : list Z) : a <> b -> Py.eqb a b = false.
Proof.
  intros H. destruct (Py.eqb a b) eqn:E; [|reflexivity].
  apply eqb_eq in E. contradiction.
Qed.

(** [unpack] in one piece: the archive is read, the names resolved, the
    entries extracted. *)
Lemma unpack_unfold (inflate : list Z -> option (list Z)) (fuel : nat)
  (file : list Z) (root : bool) :
  unpack inflate fuel file root
  = match resolve fuel (magic (fst (read_archive file O)))
            (stringTable (fst (read_archive file O)))
            (fileEntries (fst (read_archive file O))) with
    | None => None
    | Some es =>
        Some (fst (extract_entries inflate root es file
                     (snd (read_archive file O))))
    end.
Proof.
  unfold unpack, unpack_file, bind.
  destruct (read_archive file O) as [a p]. simpl.
  destruct (resolve fuel (magic a) (stringTable a) (fileEntries a));
    [|reflexivity].
  destruct (extract_entries inflate root l file p). reflexivity.
Qed.

Lemma extract_entries_missing (inflate : list Z -> option (list Z))
  (es : list TOCEntry) (file : list Z) (p : nat) :
  fst (extract_entries inflate false es file p)
  = ([], match es with [] => None | _ :: _ => Some OutputDirectoryMissing end).
Proof. destruct es; reflexivity. Qed.

Lemma decode_packed_total (fuel : nat) (table : list Z) :
  (enough table <= fuel)%nat ->
  forall (entries : list TOCEntry) (first : list Z),
  exists done, decode_packed fuel table entries first = Some done
               /\ length done = length entries.
Proof.
  intros Hf. induction entries as [|e rest IH]; intros first.
  - exists []. split; reflexivity.
  - simpl. unfold extract.
    destruct (extract_loop_total table fuel (start (nameOffset e)) [])
      as [temp ->].
    { pose proof (enough_is_enough table (nameOffset e)). lia. }
    destruct (IH (reconstruct first temp)) as (done & -> & Hlen).
    eexists. split; [reflexivity|]. simpl. congruence.
Qed.

Lemma raw_loop_mono (table : list Z) :
  forall (fuel fuel' p : nat) (acc name : list Z),
    raw_loop fuel table p acc = Some name -> (fuel <= fuel')%nat ->
    raw_loop fuel' table p acc = Some name.
Proof.
  induction fuel as [|f IH]; intros fuel' p acc name H Hle; [discriminate|].
  destruct fuel' as [|f']; [lia|]. simpl in *.
  destruct (nth_error table p) as [b|].
  - destruct (b =? 0); [assumption|]. apply IH with (1 := H). lia.
  - apply IH with (1 := H). lia.
Qed.

Lemma raw_decode_total (fuel : nat) (table : list Z) (offset : Z) (j : nat) :
  (Z.to_nat offset <= j)%nat -> nth_error table j = Some 0 ->
  (length table < fuel)%nat ->
  exists name, raw_decode fuel table offset = Some name.
Proof.
  intros Hj Hz Hf.
  assert (j < length table)%nat by (apply nth_error_Some; congruence).
  destruct (raw_loop_reaches_zero table (j - Z.to_nat offset)
              (Z.to_nat offset) []) as [name Hn].
  { rewrite <- Hz. f_equal. lia. }
  exists name. unfold raw_decode.
  apply raw_loop_mono with (1 := Hn). lia.
Qed.

Lemma decode_raw_total (fuel : nat) (table : list Z) :
  (length table < fuel)%nat ->
  forall entries : list TOCEntry,
    (forall e, In e entries ->
       exists j, (Z.to_nat (nameOffset e) <= j)%nat
                 /\ nth_error table j = Some 0) ->
    exists done, decode_raw fuel table entries = Some done
                 /\ length done = length entries.
Proof.
  intros Hf. induction entries as [|e rest IH]; intros Hz.
  - exists []. split; reflexivity.
  - simpl. destruct (Hz e (or_introl eq_refl)) as (j & Hj & Hj0).
    destruct (raw_decode_total fuel table (nameOffset e) j Hj Hj0 Hf)
      as [name ->].
    destruct IH as (done & -> & Hlen).
    { intros e' He'. apply Hz. right. exact He'. }
    eexists. split; [reflexivity|]. simpl. congruence.
Qed.

(** The names resolve when every loop has turns enough. *)
Lemma resolve_total (fuel : nat) (a : Archive) :
  names_end a -> (enough (stringTable a) <= fuel)%nat ->
  exists es, resolve fuel (magic a) (stringTable a) (fileEntries a) = Some es
             /\ length es = length (fileEntries a).
Proof.
  intros Hn Hf. unfold resolve.
  destruct (Py.eqb (magic a) Dave) eqn:E1.
  - apply decode_packed_total. exact Hf.
  - destruct (Py.eqb (magic a) DAVE) eqn:E2.
    + apply eqb_eq in E2. apply decode_raw_total.
      * unfold enough in Hf. lia.
      * apply Hn. exact E2.
    + eauto.
Qed.

Lemma read_entries_length :
  forall (n : nat) (file : list Z) (p : nat),
    length (fst (read_entries n file p)) = n.
Proof.
  induction n as [|n IH]; intros file p; [reflexivity|].
  simpl. unfold bind.
  destruct (new_TOCEntry file p) as [e p1].
  specialize (IH file p1).
  destruct (read_entries n file p1) as [es p2]. simpl in *. congruence.
Qed.

Lemma read_archive_entries (file : list Z) :
  length (fileEntries (fst (read_archive file O)))
  = Z.to_nat (numFiles (fst (read_archive file O))).
Proof.
  unfold read_archive, bind.
  repeat match goal with
         | |- context [let '(_, _) := ?c in _] =>
             let x := fresh "x" in let q := fresh "q" in
             destruct c as [x q] eqn:?
         end.
  simpl.
  match goal with
  | H : read_entries ?n ?f ?p = (?es, _) |- length ?es = ?n =>
      pose proof (read_entries_length n f p) as L; rewrite H in L; exact L
  end.
Qed.

Lemma new_TOCEntry_path (file : list Z) (p : nat) :
  filepath (fst (new_TOCEntry file p)) = [].
Proof.
  unfold new_TOCEntry, bind.
  repeat match goal with
         | |- context [let '(_, _) := ?c in _] => destruct c
         end.
  reflexivity.
Qed.

Lemma read_entries_paths :
  forall (n : nat) (file : list Z) (p : nat),
    Forall (fun e => filepath e = []) (fst (read_entries n file p)).
Proof.
  induction n as [|n IH]; intros file p; [constructor|].
  simpl. unfold bind.
  pose proof (new_TOCEntry_path file p) as He.
  destruct (new_TOCEntry file p) as [e p1].
  specialize (IH file p1).
  destruct (read_entries n file p1) as [es p2]. simpl in *.
  constructor; assumption.
Qed.

Lemma read_archive_paths (file : list Z) :
  Forall (fun e => filepath e = [])
         (fileEntries (fst (read_archive file O))).
Proof.
  unfold read_archive, bind.
  repeat match goal with
         | |- context [let '(_, _) := ?c in _] =>
             let x := fresh "x" in let q := fresh "q" in
             destruct c as [x q] eqn:?
         end.
  simpl.
  match goal with
  | H : read_entries ?n ?f ?p = (?es, _) |- Forall _ ?es =>
      pose proof (read_entries_paths n f p) as L; rewrite H in L; exact L
  end.
Qed.

Lemma no_entries (file : list Z) :
  numFiles (fst (read_archive file O)) <= 0 ->
  fileEntries (fst (read_archive file O)) = [].
Proof.
  intros H. apply length_zero_iff_nil.
  rewrite read_archive_entries. lia.
Qed.

Lemma some_entries (file : list Z) :
  0 < numFiles (fst (read_archive file O)) ->
  exists e rest, fileEntries (fst (read_archive file O)) = e :: rest
                 /\ filepath e = [].
Proof.
  intros H. pose proof (read_archive_entries file) as L.
  pose proof (read_archive_paths file) as P.
  destruct (fileEntries (fst (read_archive file O))) as [|e rest].
  - simpl in L. lia.
  - exists e, rest. split; [reflexivity|].
    inversion P; assumption.
Qed.

(** C9, as the code has it.  With a destination root that does not exist
    [unpack] never creates the root nor anything else.  When the names of
    the string table can be read (always for the tag "Dave" and for an
    unknown tag; for "DAVE" when a zero byte closes every name) it raises
    "Output directory does not exist" if [entryCount] is 1 or more, and
    returns without an error if [entryCount] is 0: the test is made in the
    loop over the entries. *)
Theorem unpack_missing_output_directory
  (inflate : list Z -> option (list Z)) (fuel : nat) (file : list Z) :
  let a := fst (read_archive file O) in
  (forall r, unpack inflate fuel file false = Some r -> fst r = [])
  /\ (names_end a -> (enough (stringTable a) <= fuel)%nat ->
      unpack inflate fuel file false
      = Some ([], if numFiles a <=? 0 then None
                  else Some OutputDirectoryMissing)).
Proof.
  cbv zeta. rewrite unpack_unfold. split.
  - intros r H.
    destruct (resolve fuel _ _ _) as [es|]; [|discriminate].
    injection H as <-. rewrite extract_entries_missing. reflexivity.
  - intros Hn Hf.
    destruct (resolve_total fuel _ Hn Hf) as (es & -> & Hlen).
    rewrite extract_entries_missing. do 2 f_equal.
    rewrite read_archive_entries in Hlen.
    destruct (Z.leb_spec (numFiles (fst (read_archive file O))) 0).
    + destruct es; [reflexivity | simpl in Hlen; lia].
    + destruct es; [simpl in Hlen; lia | reflexivity].
Qed.

(** A "Dave" archive of one entry, whose file ends after the count. *)
Lemma unpack_missing_output_directory_witness :
  names_end (fst (read_archive short_Dave O))
  /\ (enough (stringTable (fst (read_archive short_Dave O))) <= 4)%nat
  /\ unpack (fun _ => None) 4 short_Dave false
     = Some ([], Some OutputDirectoryMissing).
Proof.
  assert (Hn : names_end (fst (read_archive short_Dave O)))
    by (intros H; discriminate H).
  assert (Hf : (enough (stringTable (fst (read_archive short_Dave O)))
                <= 4)%nat) by (vm_compute; lia).
  split; [exact Hn|]. split; [exact Hf|].
  exact (proj2 (unpack_missing_output_directory (fun _ => None) 4
                  short_Dave) Hn Hf).
Defined.

(** C9 as stated fails for [entryCount = 0]: the archive of the empty
    source is unpacked without an error when the root is missing. *)
Lemma unpack_empty_archive_without_root :
  pack (fun data => data) no_assets false = Some empty_archive
  /\ numFiles (fst (read_archive empty_archive O)) = 0
  /\ forall inflate fuel,
       unpack inflate fuel empty_archive false = Some ([], None).
Proof.
  split; [vm_compute; reflexivity|]. split; [vm_compute; reflexivity|].
  intros inflate fuel. rewrite unpack_unfold.
  replace (fileEntries (fst (read_archive empty_archive O))) with (@nil TOCEntry)
    by (vm_compute; reflexivity).
  replace (magic (fst (read_archive empty_archive O))) with DAVE
    by (vm_compute; reflexivity).
  reflexivity.
Qed.

(** With entries that have no path, the loop names no path below the
    output directory. *)
Lemma extract_entries_at_root (inflate : list Z -> option (list Z))
  (root : bool) (file : list Z) :
  forall (entries : list TOCEntry) (p : nat),
    Forall (fun e => filepath e = []) entries ->
    Forall at_root (fst (fst (extract_entries inflate root entries file p))).
Proof.
  induction entries as [|e rest IH]; intros p He; [constructor|].
  inversion He as [|? ? Hp Hrest]; subst.
  cbn [extract_entries]. destruct root; cbn [negb]; [|constructor].
  assert (Hd : getDir e = []) by (unfold getDir; rewrite Hp; reflexivity).
  assert (Hi : isDir e = false) by (unfold isDir; rewrite Hp; reflexivity).
  rewrite Hi, Hd. unfold bind, extract_file, bind.
  destruct (seek (fileOffset e) file p) as [u p1].
  destruct (read (compressedSize e) file p1) as [data p2].
  rewrite Hp.
  destruct (isCompressed e); [destruct (inflate data) as [plain|]|];
    cbn [ret fst snd].
  - specialize (IH p2 Hrest).
    destruct (extract_entries inflate true rest file p2) as [r p3].
    cbn [ret fst snd after app] in *.
    constructor; [reflexivity|]. constructor; [reflexivity|]. exact IH.
  - cbn [after fst snd app]. repeat constructor.
  - specialize (IH p2 Hrest).
    destruct (extract_entries inflate true rest file p2) as [r p3].
    cbn [ret fst snd after app] in *.
    constructor; [reflexivity|]. constructor; [reflexivity|]. exact IH.
Qed.

(** C6, as the code has it.  [unpack] makes no test of the magic tag.
    Under a tag that is neither "Dave" nor "DAVE" it reads the header and
    the table of contents all the same; the [if] and the [elif] are
    passed over, so that none of the loops over the string table runs and
    the path of every entry stays empty: no entry is a directory and
    every entry has the output directory itself as its directory.  Then
    the loop over the entries runs: [unpack] returns without an error if
    [entryCount] is 0; it raises "Output directory does not exist" if
    [entryCount] is 1 or more and the root is missing; and whatever it
    does, it names no path below the output directory: no file and no
    directory is made in it. *)
Theorem unpack_unknown_magic
  (inflate : list Z -> option (list Z)) (fuel : nat) (file : list Z)
  (root : bool) :
  let a := fst (read_archive file O) in
  magic a <> Dave -> magic a <> DAVE ->
  resolve fuel (magic a) (stringTable a) (fileEntries a)
  = Some (fileEntries a)
  /\ unpack inflate fuel file root <> None
  /\ length (fileEntries a) = Z.to_nat (numFiles a)
  /\ Forall (fun e => filepath e = [] /\ isDir e = false /\ getDir e = [])
            (fileEntries a)
  /\ (numFiles a <= 0 -> unpack inflate fuel file root = Some ([], None))
  /\ (0 < numFiles a -> root = false ->
      unpack inflate fuel file root = Some ([], Some OutputDirectoryMissing))
  /\ (forall ops err,
        unpack inflate fuel file root = Some (ops, err) ->
        Forall at_root ops).
Proof.
  cbv zeta. intros H1 H2.
  assert (Hu : unpack inflate fuel file root
    = Some (fst (extract_entries inflate root
                   (fileEntries (fst (read_archive file O))) file
                   (snd (read_archive file O))))).
  { rewrite unpack_unfold. unfold resolve.
    rewrite (eqb_neq _ _ H1), (eqb_neq _ _ H2). reflexivity. }
  split.
  { unfold resolve. rewrite (eqb_neq _ _ H1), (eqb_neq _ _ H2).
    reflexivity. }
  split; [rewrite Hu; discriminate|].
  split; [apply read_archive_entries|].
  split.
  { pose proof (read_archive_paths file) as Hp.
    rewrite Forall_forall in Hp. apply Forall_forall. intros e He.
    specialize (Hp e He). split; [exact Hp|].
    unfold isDir, getDir. rewrite Hp. split; reflexivity. }
  rewrite Hu. split; [|split].
  - intros H0. rewrite (no_entries file H0). reflexivity.
  - intros H0 ->. rewrite extract_entries_missing.
    destruct (some_entries file H0) as (e & rest & -> & _). reflexivity.
  - intros ops err Ho.
    pose proof (extract_entries_at_root inflate root file
                  (fileEntries (fst (read_archive file O)))
                  (snd (read_archive file O)) (read_archive_paths file))
      as Hr.
    injection Ho as Ho. rewrite Ho in Hr. exact Hr.
Qed.

(** An archive of one entry under the tag "XXXX", without a root. *)
Lemma unpack_unknown_magic_witness :
  magic (fst (read_archive short_unknown O)) <> Dave
  /\ magic (fst (read_archive short_unknown O)) <> DAVE
  /\ unpack (fun _ => None) 1 short_unknown false
     = Some ([], Some OutputDirectoryMissing).
Proof.
  assert (H1 : magic (fst (read_archive short_unknown O)) <> Dave)
    by (vm_compute; discriminate).
  assert (H2 : magic (fst (read_archive short_unknown O)) <> DAVE)
    by (vm_compute; discriminate).
  split; [exact H1|]. split; [exact H2|].
  destruct (unpack_unknown_magic (fun _ => None) 1 short_unknown
              false H1 H2) as (_ & _ & _ & _ & _ & H & _).
  apply H; [vm_compute|]; reflexivity.
Defined.

(** C6 as stated fails: under the tag "XXXX" the header is read, and the
    archive without entries is unpacked without any error, whether or not
    the root exists. *)
Lemma unpack_unknown_magic_no_error :
  magic (fst (read_archive unknown_archive O)) = Py.str "XXXX"
  /\ numFiles (fst (read_archive unknown_archive O)) = 0
  /\ forall inflate fuel root,
       unpack inflate fuel unknown_archive root = Some ([], None).
Proof.
  split; [vm_compute; reflexivity|]. split; [vm_compute; reflexivity|].
  intros inflate fuel root. rewrite unpack_unfold.
  replace (fileEntries (fst (read_archive unknown_archive O)))
    with (@nil TOCEntry) by (vm_compute; reflexivity).
  replace (magic (fst (read_archive unknown_archive O)))
    with (Py.str "XXXX") by (vm_compute; reflexivity).
  reflexivity.
Qed.

(** The last of two paths, read from the table [pack] writes. *)
Lemma raw_table_decode_encode_witness :
  Forall (Forall (fun b => b <> 0)) two_paths
  /\ nth_error two_paths 1 = Some (Py.str "sub/")
  /\ raw_decode 5 (padded (raw_encode two_paths)) (raw_offset two_paths 1)
     = Some (Py.str "sub/").
Proof.
  assert (Hnz : Forall (Forall (fun b => b <> 0)) two_paths)
    by (repeat constructor; discriminate).
  split; [exact Hnz|]. split; [reflexivity|].
  destruct (raw_table_decode_encode two_paths 1 (Py.str "sub/") Hnz eq_refl)
    as (_ & _ & H & _).
  apply H; [vm_compute; discriminate | simpl; lia].
Defined.

(** C4 as stated fails for the last path: the joined paths end without a
    zero byte, and the read of the one path of ["a"] never ends. *)
Lemma raw_last_path_is_not_closed :
  ~ (forall (paths : list (list Z)) (i : nat) (path : list Z),
       Forall (Forall (fun b => b <> 0)) paths ->
       nth_error paths i = Some path ->
       exists fuel,
         raw_decode fuel (raw_encode paths) (raw_offset paths i) = Some path).
Proof.
  intros H.
  destruct (H [[97]] O [97]) as [fuel Hf];
    [repeat constructor; discriminate | reflexivity |].
  apply raw_loop_zero_ahead in Hf. destruct Hf as (j & _ & Hz).
  destruct j as [|[|j]]; discriminate Hz.
Qed.

(** ** Padding *)

Lemma Padding_multiple (num : Z) : Padding num PAD false mod PAD = 0.
Proof.
  unfold Padding. destruct (num mod PAD =? 0) eqn:E.
  - apply Z.eqb_eq. exact E.
  - unfold PAD in *. pose proof (Z.div_mod num 0x800 ltac:(lia)) as D.
    replace (num + 0x800 - num mod 0x800) with ((num / 0x800 + 1) * 0x800)
      by lia.
    apply Z.mod_mul. lia.
Qed.

Lemma Padding_rest (num : Z) :
  Padding num PAD false = num + Padding num PAD true
  /\ 0 <= Padding num PAD true < PAD.
Proof.
  unfold Padding.
  assert (0 <= num mod PAD < PAD) by (apply Z.mod_pos_bound; reflexivity).
  destruct (num mod PAD =? 0) eqn:E.
  - split; [lia | unfold PAD; lia].
  - apply Z.eqb_neq in E. split; lia.
Qed.

Lemma len_zeros (n : Z) : 0 <= n -> Py.len (Py.zeros n) = n.
Proof.
  intros H. unfold Py.len, Py.zeros. rewrite repeat_length. lia.
Qed.

Lemma len_app {A} (x y : list A) : Py.len (x ++ y) = Py.len x + Py.len y.
Proof. unfold Py.len. rewrite length_app. lia. Qed.

Lemma len_padded (x : list Z) :
  Py.len (padded x) = Padding (Py.len x) PAD false.
Proof.
  unfold padded. destruct (Padding_rest (Py.len x)) as [-> H].
  rewrite len_app, len_zeros by lia. reflexivity.
Qed.

Lemma pack_loop_blocks (deflate : list Z -> list Z) (src : AssetSource)
  (compress : bool) :
  forall paths nameOffset fileOffset,
    Forall (fun eb => Py.len (snd eb) mod PAD = 0)
           (pack_loop deflate src compress paths nameOffset fileOffset).
Proof.
  induction paths as [|path rest IH]; intros n f; simpl; [constructor|].
  destruct (payload deflate src compress path) as [[data us] cs].
  constructor; [|apply IH].
  simpl. rewrite len_padded. apply Padding_multiple.
Qed.

(** ** Reading back what [pack] writes *)

Lemma int_of_to_bytes (v : Z) :
  0 <= v < 2 ^ 32 -> Py.int_from_bytes (Py.to_bytes 4 v) = v.
Proof.
  intros H. cbn [Py.int_from_bytes Py.to_bytes].
  change (2 ^ 32) with 4294967296 in H.
  Z.to_euclidean_division_equations. lia.
Qed.

Lemma pack_I_inv (v : Z) (b : list Z) :
  Py.pack_I v = Some b -> 0 <= v < 2 ^ 32 /\ b = Py.to_bytes 4 v.
Proof.
  unfold Py.pack_I. destruct (0 <=? v) eqn:E1; [|discriminate].
  destruct (v <? 2 ^ 32) eqn:E2; [|discriminate].
  simpl. intros [= <-]. apply Z.leb_le in E1. apply Z.ltb_lt in E2. auto.
Qed.

Lemma pack_Is_inv (v : Z) (vs b : list Z) :
  Py.pack_Is (v :: vs) = Some b ->
  0 <= v < 2 ^ 32
  /\ exists bs, Py.pack_Is vs = Some bs /\ b = Py.to_bytes 4 v ++ bs.
Proof.
  simpl. destruct (Py.pack_I v) as [b1|] eqn:E1; [|discriminate].
  destruct (Py.pack_Is vs) as [bs|]; [|discriminate].
  intros [= <-]. apply pack_I_inv in E1. destruct E1 as [H ->]. eauto.
Qed.

Lemma read_at (x pre post : list Z) :
  read (Py.len x) (pre ++ x ++ post) (length pre)
  = (x, (length pre + length x)%nat).
Proof.
  unfold read, Py.len. rewrite Nat2Z.id.
  rewrite skipn_app, skipn_all, Nat.sub_diag. simpl.
  rewrite firstn_app, firstn_all, Nat.sub_diag. simpl.
  rewrite app_nil_r. reflexivity.
Qed.

Lemma read_int_at (v : Z) (pre post : list Z) :
  0 <= v < 2 ^ 32 ->
  read_int (pre ++ Py.to_bytes 4 v ++ post) (length pre)
  = (v, (length pre + 4)%nat).
Proof.
  intros H. unfold read_int, bind.
  change 4 with (Py.len (Py.to_bytes 4 v)).
  rewrite read_at. unfold ret. rewrite int_of_to_bytes by exact H.
  reflexivity.
Qed.

(** The entry that the four values of [e] read back as. *)
Lemma new_TOCEntry_at (e : TOCEntry) (b pre post : list Z) :
  Py.pack_Is [nameOffset e; fileOffset e;
              uncompressedSize e; compressedSize e] = Some b ->
  new_TOCEntry (pre ++ b ++ post) (length pre)
  = (set_filepath e [], (length pre + 16)%nat)
  /\ length b = 16%nat.
Proof.
  intros H.
  apply pack_Is_inv in H. destruct H as (Ha & b1 & H & ->).
  apply pack_Is_inv in H. destruct H as (Hb & b2 & H & ->).
  apply pack_Is_inv in H. destruct H as (Hc & b3 & H & ->).
  apply pack_Is_inv in H. destruct H as (Hd & b4 & H & ->).
  injection H as <-. split; [|reflexivity].
  unfold new_TOCEntry, bind.
  rewrite <- !app_assoc. rewrite read_int_at by exact Ha.
  replace (pre ++ Py.to_bytes 4 (nameOffset e) ++
           Py.to_bytes 4 (fileOffset e) ++
           Py.to_bytes 4 (uncompressedSize e) ++
           Py.to_bytes 4 (compressedSize e) ++ [] ++ post)
    with ((pre ++ Py.to_bytes 4 (nameOffset e)) ++
          Py.to_bytes 4 (fileOffset e) ++
          Py.to_bytes 4 (uncompressedSize e) ++
          Py.to_bytes 4 (compressedSize e) ++ [] ++ post)
    by (rewrite <- app_assoc; reflexivity).
  replace (length pre + 4)%nat
    with (length (pre ++ Py.to_bytes 4 (nameOffset e)))
    by (rewrite length_app; reflexivity).
  rewrite read_int_at by exact Hb.
  replace ((pre ++ Py.to_bytes 4 (nameOffset e)) ++
           Py.to_bytes 4 (fileOffset e) ++
           Py.to_bytes 4 (uncompressedSize e) ++
           Py.to_bytes 4 (compressedSize e) ++ [] ++ post)
    with (((pre ++ Py.to_bytes 4 (nameOffset e)) ++
           Py.to_bytes 4 (fileOffset e)) ++
          Py.to_bytes 4 (uncompressedSize e) ++
          Py.to_bytes 4 (compressedSize e) ++ [] ++ post)
    by (rewrite <- !app_assoc; reflexivity).
  replace (length (pre ++ Py.to_bytes 4 (nameOffset e)) + 4)%nat
    with (length ((pre ++ Py.to_bytes 4 (nameOffset e))
                  ++ Py.to_bytes 4 (fileOffset e)))
    by (rewrite !length_app; reflexivity).
  rewrite read_int_at by exact Hc.
  replace (((pre ++ Py.to_bytes 4 (nameOffset e)) ++
            Py.to_bytes 4 (fileOffset e)) ++
           Py.to_bytes 4 (uncompressedSize e) ++
           Py.to_bytes 4 (compressedSize e) ++ [] ++ post)
    with ((((pre ++ Py.to_bytes 4 (nameOffset e)) ++
            Py.to_bytes 4 (fileOffset e)) ++
           Py.to_bytes 4 (uncompressedSize e)) ++
          Py.to_bytes 4 (compressedSize e) ++ [] ++ post)
    by (rewrite <- !app_assoc; reflexivity).
  replace (length ((pre ++ Py.to_bytes 4 (nameOffset e))
                   ++ Py.to_bytes 4 (fileOffset e)) + 4)%nat
    with (length (((pre ++ Py.to_bytes 4 (nameOffset e))
                   ++ Py.to_bytes 4 (fileOffset e))
                  ++ Py.to_bytes 4 (uncompressedSize e)))
    by (rewrite !length_app; reflexivity).
  rewrite read_int_at by exact Hd.
  unfold ret, set_filepath. f_equal.
  rewrite !length_app. simpl. lia.
Qed.

Lemma read_entries_at :
  forall (es : list TOCEntry) (bytes pre post : list Z),
    pack_entries es = Some bytes ->
    read_entries (length es) (pre ++ bytes ++ post) (length pre)
    = (map (fun e => set_filepath e []) es,
       (length pre + 16 * length es)%nat)
    /\ length bytes = (16 * length es)%nat.
Proof.
  induction es as [|e es IH]; intros bytes pre post H.
  - simpl in H. injection H as <-. simpl. unfold ret.
    split; [f_equal; lia | reflexivity].
  - cbn [pack_entries] in H.
    destruct (Py.pack_Is [nameOffset e; fileOffset e; uncompressedSize e;
                          compressedSize e]) as [b|] eqn:Eb; [|discriminate].
    destruct (pack_entries es) as [bs|] eqn:Ebs; [|discriminate].
    injection H as <-.
    destruct (new_TOCEntry_at e b pre (bs ++ post) Eb) as [He Hb].
    destruct (IH bs (pre ++ b) post eq_refl) as [Hes Hbs].
    split; [|rewrite length_app; simpl length; lia].
    change (read_entries (length (e :: es)))
      with (bind new_TOCEntry (fun e0 =>
              bind (read_entries (length es)) (fun es0 => ret (e0 :: es0)))).
    unfold bind at 1. rewrite <- app_assoc, He.
    unfold bind.
    replace (pre ++ b ++ bs ++ post) with ((pre ++ b) ++ bs ++ post)
      by (rewrite <- app_assoc; reflexivity).
    replace (length pre + 16)%nat with (length (pre ++ b))
      by (rewrite length_app; lia).
    rewrite Hes. unfold ret. simpl map. f_equal.
    rewrite length_app. simpl length. lia.
Qed.

Lemma read_at' (x pre post file : list Z) (p : nat) (n : Z) :
  n = Py.len x -> p = length pre -> file = pre ++ x ++ post ->
  read n file p = (x, (p + length x)%nat).
Proof. intros -> -> ->. apply read_at. Qed.

Lemma read_int_at' (v : Z) (pre post file : list Z) (p : nat) :
  0 <= v < 2 ^ 32 -> p = length pre ->
  file = pre ++ Py.to_bytes 4 v ++ post ->
  read_int file p = (v, (p + 4)%nat).
Proof. intros H -> ->. apply read_int_at, H. Qed.

Lemma read_entries_at' (es : list TOCEntry) (bytes pre post file : list Z)
  (p n : nat) :
  pack_entries es = Some bytes -> n = length es -> p = length pre ->
  file = pre ++ bytes ++ post ->
  read_entries n file p
  = (map (fun e => set_filepath e []) es, (p + 16 * length es)%nat).
Proof. intros H -> -> ->. apply read_entries_at, H. Qed.

Lemma skipn_exact {A} (pre rest : list A) (p : nat) :
  p = length pre -> skipn p (pre ++ rest) = rest.
Proof.
  intros ->. rewrite skipn_app, skipn_all, Nat.sub_diag. reflexivity.
Qed.

Lemma pack_loop_length (deflate : list Z -> list Z) (src : AssetSource)
  (compress : bool) :
  forall paths nameOffset fileOffset,
    length (pack_loop deflate src compress paths nameOffset fileOffset)
    = length paths.
Proof.
  induction paths as [|path rest IH]; intros n f; simpl; [reflexivity|].
  destruct (payload deflate src compress path) as [[data us] cs].
  simpl. f_equal. apply IH.
Qed.

Lemma layout_length (deflate : list Z -> list Z) (src : AssetSource)
  (compress : bool) :
  length (layout deflate src compress) = length (sorted_paths src).
Proof. apply pack_loop_length. Qed.

(** The bytes [pack] writes, piece by piece. *)
Lemma pack_inv (deflate : list Z -> list Z) (src : AssetSource)
  (compress : bool) (file : list Z) :
  pack deflate src compress = Some file ->
  exists TOCBinary,
    pack_entries (map fst (layout deflate src compress)) = Some TOCBinary
    /\ 0 <= Py.len (sorted_paths src) < 2 ^ 32
    /\ 0 <= estimatedTOCSize src < 2 ^ 32
    /\ 0 <= estimatedStringTableSize src < 2 ^ 32
    /\ file
       = DAVE ++ Py.to_bytes 4 (Py.len (sorted_paths src))
         ++ Py.to_bytes 4 (estimatedTOCSize src)
         ++ Py.to_bytes 4 (estimatedStringTableSize src)
         ++ Py.zeros 0x7F0
         ++ padded TOCBinary
         ++ padded (raw_encode (sorted_paths src))
         ++ concat (map snd (layout deflate src compress)).
Proof.
  unfold pack. intros H.
  destruct (Py.pack_Is _) as [fields|] eqn:Ef; [|discriminate].
  destruct (pack_entries _) as [TOCBinary|] eqn:Et; [|discriminate].
  injection H as <-.
  apply pack_Is_inv in Ef. destruct Ef as (Hn & b1 & Ef & ->).
  apply pack_Is_inv in Ef. destruct Ef as (Ht & b2 & Ef & ->).
  apply pack_Is_inv in Ef. destruct Ef as (Hs & b3 & Ef & ->).
  injection Ef as <-.
  exists TOCBinary. split; [reflexivity|]. repeat (split; [assumption|]).
  rewrite <- !app_assoc. reflexivity.
Qed.

Lemma bind_step {A B} (c : File A) (k : A -> File B) (bytes : list Z)
  (p : nat) (a : A) (p' : nat) :
  c bytes p = (a, p') -> bind c k bytes p = k a bytes p'.
Proof. intros H. unfold bind. rewrite H. reflexivity. Qed.

Lemma header_length (n t s : Z) :
  length (DAVE ++ Py.to_bytes 4 n ++ Py.to_bytes 4 t ++ Py.to_bytes 4 s
          ++ Py.zeros 0x7F0) = Z.to_nat 0x800.
Proof.
  rewrite !length_app. unfold Py.zeros. rewrite repeat_length.
  reflexivity.
Qed.

Lemma TOC_length (deflate : list Z -> list Z) (src : AssetSource)
  (compress : bool) (TOCBinary : list Z) :
  pack_entries (map fst (layout deflate src compress)) = Some TOCBinary ->
  Py.len (padded TOCBinary) = estimatedTOCSize src.
Proof.
  intros H. rewrite len_padded. unfold estimatedTOCSize. f_equal.
  destruct (read_entries_at _ _ [] [] H) as [_ L].
  unfold Py.len. rewrite L, length_map, layout_length. lia.
Qed.

(** What [unpack] reads from a file that [pack] wrote. *)
Lemma read_archive_pack (deflate : list Z -> list Z) (src : AssetSource)
  (compress : bool) (file : list Z) :
  pack deflate src compress = Some file ->
  fst (read_archive file O)
  = {| magic := DAVE;
       numFiles := Py.len (sorted_paths src);
       tocLength := estimatedTOCSize src;
       stringTableLength := estimatedStringTableSize src;
       fileEntries :=
         map (fun e => set_filepath e []) (map fst (layout deflate src compress));
       stringTable :=
         firstn (Z.to_nat (estimatedStringTableSize src))
           (padded (raw_encode (sorted_paths src))
            ++ concat (map snd (layout deflate src compress))) |}.
Proof.
  intros H.
  destruct (pack_inv deflate src compress file H)
    as (T & Et & Hn & Ht & Hs & ->).
  pose proof (header_length (Py.len (sorted_paths src))
                (estimatedTOCSize src) (estimatedStringTableSize src)) as Hh.
  pose proof (TOC_length deflate src compress T Et) as HT.
  set (F1 := Py.to_bytes 4 (Py.len (sorted_paths src))) in *.
  set (F2 := Py.to_bytes 4 (estimatedTOCSize src)) in *.
  set (F3 := Py.to_bytes 4 (estimatedStringTableSize src)) in *.
  set (S := padded (raw_encode (sorted_paths src))) in *.
  set (B := concat (map snd (layout deflate src compress))) in *.
  set (file := DAVE ++ F1 ++ F2 ++ F3 ++ Py.zeros 0x7F0 ++ padded T ++ S ++ B).
  unfold read_archive.
  rewrite (bind_step (read 4) _ file O DAVE 4%nat)
    by (apply (read_at' DAVE [] (F1 ++ F2 ++ F3 ++ Py.zeros 0x7F0
                                  ++ padded T ++ S ++ B));
        reflexivity).
  rewrite (bind_step read_int _ file 4%nat (Py.len (sorted_paths src)) 8%nat)
    by (apply (read_int_at' _ DAVE (F2 ++ F3 ++ Py.zeros 0x7F0
                                     ++ padded T ++ S ++ B));
        [exact Hn | reflexivity | reflexivity]).
  rewrite (bind_step read_int _ file 8%nat (estimatedTOCSize src) 12%nat)
    by (apply (read_int_at' _ (DAVE ++ F1) (F3 ++ Py.zeros 0x7F0
                                     ++ padded T ++ S ++ B));
        [exact Ht | reflexivity
         | unfold file; rewrite <- !app_assoc; reflexivity]).
  rewrite (bind_step read_int _ file 12%nat (estimatedStringTableSize src)
             16%nat)
    by (apply (read_int_at' _ (DAVE ++ F1 ++ F2) (Py.zeros 0x7F0
                                     ++ padded T ++ S ++ B));
        [exact Hs | reflexivity
         | unfold file; rewrite <- !app_assoc; reflexivity]).
  rewrite (bind_step (seek 0x800) _ file 16%nat tt (Z.to_nat 0x800))
    by reflexivity.
  rewrite (bind_step (read_entries _) _ file (Z.to_nat 0x800)
             (map (fun e => set_filepath e [])
                  (map fst (layout deflate src compress)))
             (Z.to_nat 0x800
              + 16 * length (map fst (layout deflate src compress)))%nat).
  2:{ apply (read_entries_at' _ T
               (DAVE ++ F1 ++ F2 ++ F3 ++ Py.zeros 0x7F0)
               (Py.zeros (Padding (Py.len T) PAD true) ++ S ++ B)).
      - exact Et.
      - rewrite length_map, layout_length. unfold Py.len. apply Nat2Z.id.
      - symmetry. exact Hh.
      - unfold file, padded. rewrite <- !app_assoc. reflexivity. }
  rewrite (bind_step (seek _) _ file _ tt
             (Z.to_nat (0x800 + estimatedTOCSize src))) by reflexivity.
  unfold bind, read, ret. cbn [fst].
  f_equal. f_equal.
  replace file
    with ((DAVE ++ F1 ++ F2 ++ F3 ++ Py.zeros 0x7F0 ++ padded T) ++ S ++ B)
    by (unfold file; rewrite <- !app_assoc; reflexivity).
  apply skipn_exact.
  replace (DAVE ++ F1 ++ F2 ++ F3 ++ Py.zeros 0x7F0 ++ padded T)
    with ((DAVE ++ F1 ++ F2 ++ F3 ++ Py.zeros 0x7F0) ++ padded T)
    by (rewrite <- !app_assoc; reflexivity).
  rewrite length_app, Hh. rewrite <- HT. unfold Py.len. lia.
Qed.

(** ** The entries [pack] writes *)

Lemma sum_len1_cons (p : list Z) (l : list (list Z)) :
  Py.sum_len1 (p :: l) = (Py.len p + 1) + Py.sum_len1 l.
Proof. reflexivity. Qed.

(** The entry and the block of the path at index [i]. *)
Lemma pack_loop_nth (deflate : list Z -> list Z) (src : AssetSource)
  (compress : bool) :
  forall (paths : list (list Z)) (i : nat) (path : list Z) (n0 f0 : Z),
    nth_error paths i = Some path ->
    nth_error (pack_loop deflate src compress paths n0 f0) i
    = Some ({| nameOffset := n0 + raw_offset paths i;
               fileOffset :=
                 f0 + payload_before
                        (pack_loop deflate src compress paths n0 f0) i;
               uncompressedSize :=
                 snd (fst (payload deflate src compress path));
               compressedSize := snd (payload deflate src compress path);
               filepath := path |},
            padded (fst (fst (payload deflate src compress path)))).
Proof.
  unfold raw_offset, payload_before.
  induction paths as [|p rest IH]; intros i path n0 f0 Hi;
    [destruct i; discriminate|].
  destruct i as [|i]; simpl in Hi.
  - injection Hi as ->. simpl.
    destruct (payload deflate src compress path) as [[data us] cs].
    simpl. do 3 f_equal; unfold Py.sum_len1, Py.len; simpl; lia.
  - cbn [pack_loop].
    destruct (payload deflate src compress p) as [[data us] cs] eqn:Ep.
    cbn [nth_error]. rewrite (IH i path _ _ Hi).
    cbn [firstn map snd concat]. rewrite sum_len1_cons, len_app, len_padded.
    do 3 f_equal; lia.
Qed.






(** ** The size of the string table *)

Lemma len_join (paths : list (list Z)) :
  paths <> [] -> Py.len (raw_encode paths) = Py.sum_len1 paths - 1.
Proof.
  unfold raw_encode. induction paths as [|p rest IH]; [congruence|].
  intros _. destruct rest as [|q rest].
  - simpl. unfold Py.sum_len1. simpl. lia.
  - change (Py.join 0 (p :: q :: rest)) with (p ++ 0 :: Py.join 0 (q :: rest)).
    rewrite sum_len1_cons, len_app.
    change (0 :: Py.join 0 (q :: rest)) with ([0] ++ Py.join 0 (q :: rest)).
    rewrite len_app, IH by discriminate.
    change (Py.len [0]) with 1. lia.
Qed.

(** X2.  The header counts a separator after the last path, which the
    string table does not have: when the paths, one separator for each, count one
    byte more than a multiple of 0x800, the header gives the string table
    0x800 bytes more than [pack] writes, and every file offset lies 0x800
    bytes behind its payload. *)
Theorem string_table_size_slip (src : AssetSource) :
  sorted_paths src <> [] ->
  Py.sum_len1 (sorted_paths src) mod PAD = 1 ->
  estimatedStringTableSize src
  = Py.len (padded (raw_encode (sorted_paths src))) + 0x800.
Proof.
  intros Hne Hmod. rewrite len_padded, len_join by exact Hne.
  unfold estimatedStringTableSize, Padding. rewrite Hmod.
  change (1 =? 0) with false. cbv iota.
  replace ((Py.sum_len1 (sorted_paths src) - 1) mod PAD) with 0.
  - change (0 =? 0) with true. cbv iota. unfold PAD. lia.
  - unfold PAD in *. symmetry.
    pose proof (Z.div_mod (Py.sum_len1 (sorted_paths src)) 0x800
                  ltac:(lia)) as D.
    rewrite Hmod in D.
    replace (Py.sum_len1 (sorted_paths src) - 1)
      with (Py.sum_len1 (sorted_paths src) / 0x800 * 0x800) by lia.
    apply Z.mod_mul. lia.
Qed.

(** The nine long names. *)
Lemma string_table_size_slip_witness :
  sorted_paths long_names <> []
  /\ Py.sum_len1 (sorted_paths long_names) mod PAD = 1
  /\ estimatedStringTableSize long_names
     = Py.len (padded (raw_encode (sorted_paths long_names))) + 0x800.
Proof.
  assert (H1 : sorted_paths long_names <> []) by (vm_compute; discriminate).
  assert (H2 : Py.sum_len1 (sorted_paths long_names) mod PAD = 1)
    by (vm_compute; reflexivity).
  split; [exact H1|]. split; [exact H2|].
  exact (string_table_size_slip long_names H1 H2).
Defined.

(** Otherwise the two sizes agree. *)
Lemma string_table_size (src : AssetSource) :
  Py.sum_len1 (sorted_paths src) mod PAD <> 1 ->
  estimatedStringTableSize src
  = Py.len (padded (raw_encode (sorted_paths src))).
Proof.
  intros Hmod. rewrite len_padded.
  unfold estimatedStringTableSize.
  destruct (sorted_paths src) as [|p rest] eqn:E; [reflexivity|].
  rewrite len_join by discriminate.
  set (s := Py.sum_len1 (p :: rest)) in *.
  unfold Padding, PAD in *.
  pose proof (Z.div_mod s 0x800 ltac:(lia)) as D.
  pose proof (Z.mod_pos_bound s 0x800 ltac:(lia)) as B.
  destruct (Z.eq_dec (s mod 0x800) 0) as [Z0|Z0].
  - rewrite Z0. change (0 =? 0) with true. cbv iota.
    assert (M : (s - 1) mod 0x800 = 0x7FF).
    { symmetry. apply (Z.mod_unique_pos _ _ (s / 0x800 - 1)); lia. }
    rewrite M. change (0x7FF =? 0) with false. cbv iota. lia.
  - assert (M : (s - 1) mod 0x800 = s mod 0x800 - 1).
    { symmetry. apply (Z.mod_unique_pos _ _ (s / 0x800)); lia. }
    rewrite M.
    destruct (s mod 0x800 =? 0) eqn:E1; [apply Z.eqb_eq in E1; lia|].
    destruct (s mod 0x800 - 1 =? 0) eqn:E2; [apply Z.eqb_eq in E2; lia|].
    lia.
Qed.

(** ** Two trees that do not come back *)

(** C1 fails on the code for the nine files of [long_names], none with a
    zero byte in its name: the names and their separators count 2049
    bytes, the header gives the string table 4096 bytes where the file has
    2048, and [unpack] writes to every path the contents of the next file,
    and writes the last file empty under a name that the first byte of the
    payload region is added to. *)
Theorem pack_unpack_long_names :
  Forall (Forall (fun b => b <> 0)) (listing long_names)
  /\ Py.sum_len1 (sorted_paths long_names) = 2049
  /\ summary (files_of long_names)
     = [(49, 255, [49]); (50, 255, [50]); (51, 255, [51]); (52, 255, [52]);
        (53, 255, [53]); (54, 255, [54]); (55, 255, [55]);
        (120, 127, [120]); (121, 128, [121])]
  /\ pack (fun data => data) long_names false = Some long_names_archive
  /\ stringTableLength (fst (read_archive long_names_archive O)) = 4096
  /\ Py.len (padded (raw_encode (sorted_paths long_names))) = 2048
  /\ result_of (unpack (fun _ => None) 400 long_names_archive true)
     = Some ([(49, 255, [50]); (50, 255, [51]); (51, 255, [52]);
              (52, 255, [53]); (53, 255, [54]); (54, 255, [55]);
              (55, 255, [120]); (120, 127, [121]); (121, 129, [])],
             None).
Proof.
  split; [repeat constructor; vm_compute; discriminate|].
  repeat split; vm_compute; reflexivity.
Qed.

(** C5 fails on the code for a file whose deflate stream is as long as the
    file: [pack] stores the stream with both sizes equal, [unpack] takes
    the entry for one that is not compressed, and writes the stream itself.
    For the five bytes of ["aaaaa"] raw deflate gives the five bytes
    [4B 4C 04 02 00]. *)
Theorem pack_unpack_same_size (deflate : list Z -> list Z)
  (inflate : list Z -> option (list Z)) (fuel : nat) :
  deflate (Py.str "aaaaa") = five_a_deflated ->
  (1 < fuel)%nat ->
  files_of five_a = [(Py.str "f", Py.str "aaaaa")]
  /\ pack_unpack deflate inflate fuel five_a true
     = Some ([MakeDirs []; WriteFile (Py.str "f") five_a_deflated], None).
Proof.
  intros Hd Hf. split; [reflexivity|].
  unfold pack_unpack, pack, layout.
  replace (sorted_paths five_a) with [Py.str "f"] by reflexivity.
  cbn [pack_loop].
  replace (payload deflate five_a true (Py.str "f"))
    with (five_a_deflated, 5, 5)
    by (unfold payload; simpl; rewrite Hd; reflexivity).
  destruct fuel as [|[|fuel]]; try lia.
  vm_compute. reflexivity.
Qed.

(** With a compressor that gives the five bytes for every input. *)
Lemma pack_unpack_same_size_witness :
  (fun _ : list Z => five_a_deflated) (Py.str "aaaaa") = five_a_deflated
  /\ (1 < 2)%nat
  /\ pack_unpack (fun _ => five_a_deflated) (fun _ => None) 2 five_a true
     = Some ([MakeDirs []; WriteFile (Py.str "f") five_a_deflated], None).
Proof.
  split; [reflexivity|]. split; [lia|].
  exact (proj2 (pack_unpack_same_size (fun _ => five_a_deflated)
                  (fun _ => None) 2 eq_refl ltac:(lia))).
Defined.

(** ** The round trip, where it holds *)

Lemma decode_raw_entries (fuel : nat) (table : list Z) :
  forall es : list TOCEntry,
    (forall e, In e es ->
       raw_decode fuel table (nameOffset e) = Some (filepath e)) ->
    decode_raw fuel table (map (fun e => set_filepath e []) es) = Some es.
Proof.
  induction es as [|e es IH]; intros H; [reflexivity|].
  simpl. rewrite (H e (or_introl eq_refl)).
  rewrite IH by (intros e' He'; apply H; right; exact He').
  destruct e; reflexivity.
Qed.

Lemma layout_entry (deflate : list Z -> list Z) (src : AssetSource)
  (compress : bool) (e : TOCEntry) :
  In e (map fst (layout deflate src compress)) ->
  exists i, nth_error (sorted_paths src) i = Some (filepath e)
            /\ nameOffset e = raw_offset (sorted_paths src) i.
Proof.
  intros He. apply In_nth_error in He. destruct He as [i Hi].
  assert (Hlt : (i < length (sorted_paths src))%nat).
  { rewrite <- (layout_length deflate src compress), <- (length_map fst).
    apply nth_error_Some. congruence. }
  destruct (nth_error (sorted_paths src) i) as [path|] eqn:Hp;
    [|apply nth_error_None in Hp; lia].
  exists i. unfold layout in Hi.
  rewrite nth_error_map, (pack_loop_nth _ _ _ _ _ _ _ _ Hp) in Hi.
  simpl in Hi. injection Hi as <-. simpl. split; [exact Hp | lia].
Qed.

Lemma path_in_table (paths : list (list Z)) (i : nat) (path : list Z) :
  nth_error paths i = Some path ->
  (length path <= length (raw_encode paths))%nat.
Proof.
  intros H. destruct (join_at paths i path H) as (pre & post & -> & _).
  rewrite !length_app. lia.
Qed.

Lemma sort_insert_In (p q : list Z) :
  forall l, In q (Py.insert p l) <-> q = p \/ In q l.
Proof.
  induction l as [|x l IH]; simpl.
  - intuition congruence.
  - destruct (Py.leb p x); simpl; [intuition congruence|].
    rewrite IH. intuition congruence.
Qed.

Lemma sort_In (l : list (list Z)) (q : list Z) :
  In q (Py.sort l) <-> In q l.
Proof.
  unfold Py.sort. induction l as [|p l IH]; simpl; [tauto|].
  rewrite sort_insert_In, IH. intuition congruence.
Qed.

(** The names of an archive of [pack] resolve to the entries of [pack]. *)
Lemma resolve_pack (deflate : list Z -> list Z) (src : AssetSource)
  (compress : bool) (fuel : nat) :
  Forall (Forall (fun b => b <> 0)) (listing src) ->
  Py.sum_len1 (sorted_paths src) mod PAD <> 1 ->
  (Z.to_nat (estimatedStringTableSize src) < fuel)%nat ->
  resolve fuel DAVE (padded (raw_encode (sorted_paths src)))
    (map (fun e => set_filepath e []) (map fst (layout deflate src compress)))
  = Some (map fst (layout deflate src compress)).
Proof.
  intros Hnz Hmod Hf. unfold resolve.
  change (Py.eqb DAVE Dave) with false. change (Py.eqb DAVE DAVE) with true.
  cbv iota. apply decode_raw_entries. intros e He.
  destruct (layout_entry deflate src compress e He) as (i & Hi & ->).
  assert (Hne : sorted_paths src <> [])
    by (destruct i; intros E; rewrite E in Hi; discriminate).
  assert (Hnz' : Forall (Forall (fun b => b <> 0)) (sorted_paths src)).
  { rewrite Forall_forall in *. intros q Hq. apply Hnz.
    apply sort_In. exact Hq. }
  destruct (padded_begins_with_zero (raw_encode (sorted_paths src)))
    as [tail ->].
  { rewrite len_join by exact Hne.
    intros E. apply Hmod. unfold PAD in *.
    pose proof (Z.div_mod (Py.sum_len1 (sorted_paths src) - 1) 0x800
                  ltac:(lia)) as D. rewrite E in D.
    symmetry. apply (Z.mod_unique_pos _ _
                       ((Py.sum_len1 (sorted_paths src) - 1) / 0x800)); lia. }
  apply raw_decode_closed; try assumption.
  pose proof (path_in_table _ _ _ Hi) as Hl.
  rewrite (string_table_size src Hmod), len_padded in Hf.
  destruct (Padding_rest (Py.len (raw_encode (sorted_paths src)))) as [E R].
  rewrite E in Hf. unfold Py.len in *. lia.
Qed.

Lemma extract_file_at (inflate : list Z -> option (list Z)) (e : TOCEntry)
  (data pre post file : list Z) (p : nat) :
  Py.len pre = fileOffset e -> Py.len data = compressedSize e ->
  file = pre ++ data ++ post ->
  extract_file inflate e file p
  = (if isCompressed e then
       match inflate data with
       | Some plain => ([WriteFile (filepath e) plain], None)
       | None => ([WriteFile (filepath e) []], Some ZlibError)
       end
     else ([WriteFile (filepath e) data], None),
     (length pre + length data)%nat).
Proof.
  intros Hpre Hdata ->. unfold extract_file.
  rewrite (bind_step (seek _) _ _ p tt (length pre))
    by (unfold seek; rewrite <- Hpre; unfold Py.len; rewrite Nat2Z.id;
        reflexivity).
  rewrite (bind_step (read _) _ _ _ data (length pre + length data)%nat)
    by (apply (read_at' data pre post); auto).
  destruct (isCompressed e); [destruct (inflate data)|]; reflexivity.
Qed.

(** The last loop of [unpack] on the entries and blocks of [pack]. *)
Lemma extract_pack_loop (deflate : list Z -> list Z)
  (inflate : list Z -> option (list Z)) (src : AssetSource)
  (compress : bool) :
  forall (paths : list (list Z)) (n0 f0 : Z) (pre post : list Z) (p : nat),
    Py.len pre = f0 ->
    (compress = true ->
     forall path, In path paths -> Py.endswith path slash = false ->
       inflate (deflate (contents src path)) = Some (contents src path)
       /\ Py.len (deflate (contents src path))
          <> Py.len (contents src path)) ->
    fst (extract_entries inflate true
           (map fst (pack_loop deflate src compress paths n0 f0))
           (pre ++ concat (map snd (pack_loop deflate src compress paths n0 f0))
                ++ post) p)
    = (unpacked_ops src paths, None).
Proof.
  induction paths as [|path rest IH]; intros n0 f0 pre post p Hpre Hz;
    [reflexivity|].
  cbn [pack_loop].
  destruct (payload deflate src compress path) as [[data us] cs] eqn:Ep.
  cbn [map fst snd concat extract_entries negb].
  unfold isDir, getDir. cbn [filepath].
  assert (IH' : forall p',
    fst (extract_entries inflate true
           (map fst (pack_loop deflate src compress rest
                       (n0 + (Py.len path + 1))
                       (f0 + Padding (Py.len data) PAD false)))
           (pre ++ (padded data
                    ++ concat (map snd
                         (pack_loop deflate src compress rest
                            (n0 + (Py.len path + 1))
                            (f0 + Padding (Py.len data) PAD false))))
                ++ post) p')
    = (unpacked_ops src rest, None)).
  { intros p'.
    replace (pre ++ (padded data ++ concat (map snd
               (pack_loop deflate src compress rest
                  (n0 + (Py.len path + 1))
                  (f0 + Padding (Py.len data) PAD false)))) ++ post)
      with ((pre ++ padded data) ++ concat (map snd
               (pack_loop deflate src compress rest
                  (n0 + (Py.len path + 1))
                  (f0 + Padding (Py.len data) PAD false))) ++ post)
      by (rewrite <- !app_assoc; reflexivity).
    apply IH.
    - rewrite len_app, len_padded. lia.
    - intros Hc q Hq. apply Hz; [exact Hc | right; exact Hq]. }
  unfold payload in Ep.
  destruct (Py.endswith path slash) eqn:Ed; cbn [negb] in Ep.
  - injection Ep as <- <- <-.
    unfold bind.
    specialize (IH' p).
    destruct (extract_entries inflate true _ _ p) as [r p'].
    cbn [fst] in IH'. subst r.
    cbn [unpacked_ops flat_map]. rewrite Ed. reflexivity.
  - assert (Hw : exists q,
      extract_file inflate
        {| nameOffset := n0; fileOffset := f0; uncompressedSize := us;
           compressedSize := cs; filepath := path |}
        (pre ++ (padded data ++ concat (map snd
               (pack_loop deflate src compress rest
                  (n0 + (Py.len path + 1))
                  (f0 + Padding (Py.len data) PAD false)))) ++ post) p
      = ([WriteFile path (contents src path)], None, q)).
    { exists (length pre + length data)%nat.
      rewrite (extract_file_at inflate _ data pre
                 (Py.zeros (Padding (Py.len data) PAD true)
                  ++ concat (map snd
                       (pack_loop deflate src compress rest
                          (n0 + (Py.len path + 1))
                          (f0 + Padding (Py.len data) PAD false)))
                  ++ post)).
      - unfold isCompressed. cbn [uncompressedSize compressedSize filepath].
        destruct compress.
        + injection Ep as <- <- <-.
          destruct (Hz eq_refl path (or_introl eq_refl) Ed) as [Hi Hl].
          rewrite Hi.
          destruct (Py.len (contents src path)
                    =? Py.len (deflate (contents src path))) eqn:E;
            [apply Z.eqb_eq in E; congruence | reflexivity].
        + injection Ep as <- <- <-. rewrite Z.eqb_refl. reflexivity.
      - exact Hpre.
      - cbn [compressedSize]. destruct compress; injection Ep as <- <- <-;
          reflexivity.
      - unfold padded. rewrite <- !app_assoc. reflexivity. }
    destruct Hw as [q Hw].
    rewrite (bind_step _ _ _ _ _ _ Hw). cbn [snd fst].
    unfold bind. specialize (IH' q).
    destruct (extract_entries inflate true _ _ q) as [r p'].
    cbn [fst] in IH'. subst r.
    cbn [unpacked_ops flat_map]. rewrite Ed. reflexivity.
Qed.

Lemma written_unpacked (src : AssetSource) (p d : list Z) :
  forall paths,
    In (p, d) (written (unpacked_ops src paths))
    <-> In p paths /\ Py.endswith p slash = false /\ d = contents src p.
Proof.
  induction paths as [|q paths IH]; [simpl; tauto|].
  cbn [unpacked_ops flat_map].
  change (flat_map _ paths) with (unpacked_ops src paths).
  cbn [app written].
  destruct (Py.endswith q slash) eqn:E.
  - cbn [app]. rewrite IH. cbn [In].
    split; [intros (H1 & H2 & H3); auto|].
    intros ([<-|H1] & H2 & H3); [congruence | auto].
  - cbn [app written]. rewrite in_app_iff, IH. cbn [In].
    split.
    + intros [(H1 & H2 & H3) | [[= <- <-] | []]]; auto.
    + intros ([<-|H1] & H2 & ->); [right; left; reflexivity | left; auto].
Qed.

Lemma files_of_In (src : AssetSource) (p d : list Z) :
  In (p, d) (files_of src)
  <-> In p (listing src) /\ Py.endswith p slash = false
      /\ d = contents src p.
Proof.
  unfold files_of. rewrite in_map_iff. split.
  - intros (q & [= <- <-] & Hq). apply filter_In in Hq.
    destruct Hq as [H1 H2]. apply negb_true_iff in H2. auto.
  - intros (H1 & H2 & ->). exists p. split; [reflexivity|].
    apply filter_In. split; [exact H1 | apply negb_true_iff; exact H2].
Qed.

(** X1.  Where the round trip holds.  Let [pack] write a file for a source
    whose paths have no zero byte and, with one separator each, do not
    count one byte more than a multiple of 0x800; if [compress] is set, let
    the compressor give back every file and no stream as long as its file.
    Then [unpack], with turns enough to read the names, ends without an
    error after it has made the directory of every path and written every
    path that is no directory with the contents of the source, in the
    sorted order; the files it leaves are the files of the source. *)
Theorem pack_unpack_round_trip (deflate : list Z -> list Z)
  (inflate : list Z -> option (list Z)) (src : AssetSource)
  (compress : bool) (file : list Z) (fuel : nat) :
  pack deflate src compress = Some file ->
  Forall (Forall (fun b => b <> 0)) (listing src) ->
  Py.sum_len1 (sorted_paths src) mod PAD <> 1 ->
  (compress = true -> deflate_fits deflate inflate src) ->
  (Z.to_nat (estimatedStringTableSize src) < fuel)%nat ->
  unpack inflate fuel file true
  = Some (unpacked_ops src (sorted_paths src), None)
  /\ forall p d,
       In (p, d) (written (unpacked_ops src (sorted_paths src)))
       <-> In (p, d) (files_of src).
Proof.
  intros Hp Hnz Hmod Hfit Hf. split.
  - rewrite unpack_unfold, (read_archive_pack deflate src compress file Hp).
    cbn [magic stringTable fileEntries].
    pose proof (string_table_size src Hmod) as Hs.
    replace (firstn (Z.to_nat (estimatedStringTableSize src))
               (padded (raw_encode (sorted_paths src))
                ++ concat (map snd (layout deflate src compress))))
      with (padded (raw_encode (sorted_paths src))).
    2:{ rewrite Hs. unfold Py.len. rewrite Nat2Z.id.
        rewrite firstn_app, firstn_all, Nat.sub_diag. simpl.
        rewrite app_nil_r. reflexivity. }
    rewrite (resolve_pack deflate src compress fuel Hnz Hmod Hf).
    f_equal.
    destruct (pack_inv deflate src compress file Hp)
      as (T & Et & Hn & Ht & Hst & Hfile).
    pose proof (TOC_length deflate src compress T Et) as HT.
    pose proof (header_length (Py.len (sorted_paths src))
                  (estimatedTOCSize src) (estimatedStringTableSize src))
      as Hh.
    replace file
      with ((DAVE ++ Py.to_bytes 4 (Py.len (sorted_paths src))
             ++ Py.to_bytes 4 (estimatedTOCSize src)
             ++ Py.to_bytes 4 (estimatedStringTableSize src)
             ++ Py.zeros 0x7F0
             ++ padded T ++ padded (raw_encode (sorted_paths src)))
            ++ concat (map snd (layout deflate src compress)) ++ [])
      by (rewrite Hfile, app_nil_r, <- !app_assoc; reflexivity).
    unfold layout. apply extract_pack_loop.
    + replace (DAVE ++ Py.to_bytes 4 (Py.len (sorted_paths src))
               ++ Py.to_bytes 4 (estimatedTOCSize src)
               ++ Py.to_bytes 4 (estimatedStringTableSize src)
               ++ Py.zeros 0x7F0
               ++ padded T ++ padded (raw_encode (sorted_paths src)))
        with ((DAVE ++ Py.to_bytes 4 (Py.len (sorted_paths src))
               ++ Py.to_bytes 4 (estimatedTOCSize src)
               ++ Py.to_bytes 4 (estimatedStringTableSize src)
               ++ Py.zeros 0x7F0)
              ++ padded T ++ padded (raw_encode (sorted_paths src)))
        by (rewrite <- !app_assoc; reflexivity).
      rewrite (len_app (DAVE ++ _)), (len_app (padded T)), HT, <- Hs.
      unfold Py.len at 1. rewrite Hh. lia.
    + intros Hc path Hin Hd. apply (Hfit Hc); [|exact Hd].
      apply sort_In. exact Hin.
  - intros p d. rewrite written_unpacked, files_of_In.
    unfold sorted_paths. rewrite sort_In. tauto.
Qed.

(** The scenario, unpacked again. *)
Lemma pack_unpack_round_trip_witness :
  pack (fun data => data) scenario false = Some scenario_archive
  /\ Forall (Forall (fun b => b <> 0)) (listing scenario)
  /\ Py.sum_len1 (sorted_paths scenario) mod PAD <> 1
  /\ (Z.to_nat (estimatedStringTableSize scenario) < 2049)%nat
  /\ unpack (fun _ => None) 2049 scenario_archive true
     = Some ([MakeDirs []; WriteFile (Py.str "a.txt") (Py.str "hi");
              MakeDirs (Py.str "sub"); MakeDirs (Py.str "sub");
              WriteFile (Py.str "sub/b.txt") (Py.str "bye")], None).
Proof.
  assert (Hp : pack (fun data => data) scenario false = Some scenario_archive)
    by (vm_compute; reflexivity).
  assert (Hnz : Forall (Forall (fun b => b <> 0)) (listing scenario))
    by (repeat constructor; discriminate).
  assert (Hmod : Py.sum_len1 (sorted_paths scenario) mod PAD <> 1)
    by (vm_compute; discriminate).
  assert (Hf : (Z.to_nat (estimatedStringTableSize scenario) < 2049)%nat)
    by (vm_compute; lia).
  repeat (split; [assumption|]).
  exact (proj1 (pack_unpack_round_trip (fun data => data) (fun _ => None)
                  scenario false scenario_archive 2049 Hp Hnz Hmod
                  ltac:(discriminate) Hf)).
Defined.

(** ** The groups are the bits of the table, six by six *)

Lemma byte_high_bits (b n : Z) : is_byte b -> 8 <= n -> Z.testbit b n = false.
Proof.
  intros [H0 H1] Hn. apply (testbit_small b 8 n); [|lia].
  change (2 ^ 8) with 256. lia.
Qed.

Lemma testbit_cons (b x n : Z) :
  is_byte b -> 0 <= n ->
  Z.testbit (b + 256 * x) n
  = if n <? 8 then Z.testbit b n else Z.testbit x (n - 8).
Proof.
  intros Hb Hn.
  replace (b + 256 * x) with (Z.lor (Z.shiftl x 8) b)
    by (rewrite lor_shiftl_low;
        [change (2 ^ 8) with 256; lia | lia | exact Hb]).
  rewrite Z.lor_spec, Z.shiftl_spec by lia.
  destruct (Z.ltb_spec n 8).
  - rewrite (Z.testbit_neg_r x) by lia. reflexivity.
  - rewrite (byte_high_bits b n Hb) by lia. apply orb_false_r.
Qed.

Lemma byte_at_byte (table : list Z) (i : nat) :
  Forall is_byte table -> is_byte (byte_at table i).
Proof.
  intros Ht. unfold byte_at.
  destruct (Nat.lt_ge_cases i (length table)) as [H|H].
  - rewrite Forall_forall in Ht. apply Ht, nth_In, H.
  - rewrite nth_overflow by exact H. unfold is_byte. lia.
Qed.

(** Bit [n] of the number of some bytes is bit [n mod 8] of byte [n / 8]. *)
Lemma testbit_int_from_bytes :
  forall (l : list Z) (n : Z),
    Forall is_byte l -> 0 <= n ->
    Z.testbit (Py.int_from_bytes l) n
    = Z.testbit (byte_at l (Z.to_nat (n / 8))) (n mod 8).
Proof.
  induction l as [|b l IH]; intros n Hl Hn.
  - unfold byte_at. simpl. destruct (Z.to_nat (n / 8)); rewrite !Z.bits_0;
      reflexivity.
  - inversion Hl as [|? ? Hb Hl']; subst.
    cbn [Py.int_from_bytes]. rewrite testbit_cons by assumption.
    destruct (Z.ltb_spec n 8).
    + rewrite Z.div_small, Z.mod_small by lia. reflexivity.
    + rewrite IH by (try assumption; lia).
      replace (n / 8) with ((n - 8) / 8 + 1)
        by (Z.to_euclidean_division_equations; lia).
      replace (n mod 8) with ((n - 8) mod 8)
        by (Z.to_euclidean_division_equations; lia).
      assert (0 <= (n - 8) / 8) by (apply Z.div_pos; lia).
      rewrite Z2Nat.inj_add by lia. rewrite Nat.add_comm. reflexivity.
Qed.

Lemma byte_at_skipn (table : list Z) (off i : nat) :
  byte_at (skipn off table) i = byte_at table (off + i).
Proof. unfold byte_at. apply nth_skipn. Qed.

(** Bit [j] of the group of turn [k], in the stream. *)
Lemma stream_bit (table : list Z) (offset : Z) (k j : Z) :
  Forall is_byte table -> 0 <= k -> 0 <= j ->
  Z.testbit ((stream table offset / 2 ^ (6 * k)) mod 2 ^ 6) j
  = if j <? 6 then
      Z.testbit (byte_at table (Z.to_nat offset + Z.to_nat ((6 * k + j) / 8)))
                ((6 * k + j) mod 8)
    else false.
Proof.
  intros Ht Hk Hj. destruct (Z.ltb_spec j 6).
  - rewrite Z.mod_pow2_bits_low by lia.
    rewrite Z.div_pow2_bits by lia.
    replace (j + 6 * k) with (6 * k + j) by lia.
    unfold stream. rewrite testbit_int_from_bytes.
    + rewrite byte_at_skipn. reflexivity.
    + apply Forall_forall. intros x Hx. rewrite Forall_forall in Ht.
      apply Ht. rewrite <- (firstn_skipn (Z.to_nat offset) table).
      apply in_or_app. right. exact Hx.
    + lia.
  - apply Z.mod_pow2_bits_high. lia.
Qed.

Lemma before_turn_start (table : list Z) (offset : Z) :
  before_turn table offset O (start offset).
Proof.
  exists O. unfold start, is_byte. cbn [pos remainingBits lastValue].
  split; [lia|]. split; [simpl; auto|]. split; [lia|].
  split; [intros H; exfalso; apply H; reflexivity | left; lia].
Qed.

Lemma before_turn_step (table : list Z) (offset : Z) (k : nat)
  (st : bitstate) :
  Forall is_byte table ->
  before_turn table offset k st ->
  before_turn table offset (S k) (snd (next_group table st)).
Proof.
  intros Ht (v & Hv & Hr & Hl & Hlast & Hpos).
  assert (Hr' : remainingBits st = 0 \/ remainingBits st = 2
                \/ remainingBits st = 4 \/ remainingBits st = 6)
    by (simpl in Hr; intuition congruence).
  assert (Hnext : remainingBits st <> 6 ->
                  In (8 - (6 - remainingBits st)) [0; 2; 4; 6]).
  { intros E. destruct Hr' as [R|[R|[R|R]]]; try lia; rewrite R;
      simpl; auto. }
  destruct (Z.eq_dec (remainingBits st) 6) as [E|E].
  - rewrite next_group_carry by exact E. exists v.
    cbn [snd pos remainingBits lastValue]. unfold is_byte.
    split; [lia|]. split; [simpl; auto|]. split; [lia|].
    split; [intros H; exfalso; apply H; reflexivity | exact Hpos].
  - destruct (nth_error table (pos st)) as [b|] eqn:Hb.
    + rewrite (next_group_read _ _ b) by assumption. exists (S v).
      cbn [snd pos remainingBits lastValue].
      assert (Hlt : (pos st < length table)%nat)
        by (apply nth_error_Some; congruence).
      assert (Hp : pos st = (Z.to_nat offset + v)%nat) by lia.
      split; [lia|]. split; [exact (Hnext E)|].
      split; [exact (nth_error_byte _ _ _ Ht Hb)|].
      split; [|left; lia].
      intros _. split; [lia|].
      unfold byte_at. replace (Z.to_nat offset + S v - 1)%nat with (pos st)
        by lia.
      symmetry. apply nth_error_nth. exact Hb.
    + rewrite next_group_end by assumption. exists (S v).
      cbn [snd pos remainingBits lastValue].
      apply nth_error_None in Hb.
      split; [lia|]. split; [exact (Hnext E)|].
      split; [unfold is_byte; lia|].
      split; [|right; lia].
      intros _. split; [lia|].
      unfold byte_at. rewrite nth_overflow by lia. reflexivity.
Qed.

Lemma before_turn_after (table : list Z) (offset : Z) :
  Forall is_byte table ->
  forall (k j : nat) (st : bitstate),
    before_turn table offset j st ->
    before_turn table offset (j + k) (state_after k table st).
Proof.
  intros Ht. induction k as [|k IH]; intros j st H.
  - rewrite Nat.add_0_r. exact H.
  - cbn [state_after]. replace (j + S k)%nat with (S j + k)%nat by lia.
    apply IH. apply before_turn_step; assumption.
Qed.

(** The value a turn reads outside the six-bit case. *)
Lemma next_group_value (table : list Z) (st : bitstate) :
  remainingBits st <> 6 ->
  fst (next_group table st)
  = Z.lor (Z.shiftl (Z.land (fst (read_byte table (pos st)))
                            (2 ^ (6 - remainingBits st) - 1))
                    (remainingBits st))
          (Z.shiftr (lastValue st) (8 - remainingBits st)).
Proof.
  intros Hr. unfold next_group. apply Z.eqb_neq in Hr. rewrite Hr.
  cbn [negb]. destruct (read_byte table (pos st)). reflexivity.
Qed.

Lemma div_mod_8 (a m n : Z) :
  n = 8 * a + m -> 0 <= m < 8 -> n / 8 = a /\ n mod 8 = m.
Proof. intros -> H. Z.to_euclidean_division_equations. lia. Qed.

(** Bit [j] of the group of turn [k]. *)
Lemma group_bit (table : list Z) (offset : Z) (k : nat) (st : bitstate)
  (j : Z) :
  Forall is_byte table ->
  before_turn table offset k st -> 0 <= j ->
  Z.testbit (fst (next_group table st)) j
  = if j <? 6 then
      Z.testbit
        (byte_at table
           (Z.to_nat offset + Z.to_nat ((6 * Z.of_nat k + j) / 8)))
        ((6 * Z.of_nat k + j) mod 8)
    else false.
Proof.
  intros Ht (v & Hv & Hr & Hl & Hlast & Hpos) Hj.
  assert (Hr' : remainingBits st = 0 \/ remainingBits st = 2
                \/ remainingBits st = 4 \/ remainingBits st = 6)
    by (simpl in Hr; intuition congruence).
  destruct (Z.eq_dec (remainingBits st) 6) as [E|E].
  - rewrite next_group_carry by exact E. cbn [fst].
    rewrite Z.shiftr_spec by lia.
    destruct (Hlast ltac:(lia)) as [Hv1 Hlv].
    destruct (Z.ltb_spec j 6).
    + destruct (div_mod_8 (Z.of_nat v - 1) (j + 2) (6 * Z.of_nat k + j))
        as [-> ->]; try lia.
      rewrite Hlv. f_equal. f_equal. lia.
    + apply byte_high_bits; [exact Hl | lia].
  - rewrite next_group_value by exact E.
    assert (Hval : fst (read_byte table (pos st))
                   = byte_at table (Z.to_nat offset + v)).
    { unfold read_byte, byte_at.
      destruct (nth_error table (pos st)) as [b|] eqn:Hb; cbn [fst].
      - assert (pos st < length table)%nat
          by (apply nth_error_Some; congruence).
        replace (Z.to_nat offset + v)%nat with (pos st) by lia.
        symmetry. apply nth_error_nth. exact Hb.
      - apply nth_error_None in Hb. rewrite nth_overflow by lia.
        reflexivity. }
    rewrite Hval.
    set (b := byte_at table (Z.to_nat offset + v)) in *.
    assert (Hb : is_byte b) by (apply byte_at_byte; exact Ht).
    replace (2 ^ (6 - remainingBits st) - 1)
      with (Z.ones (6 - remainingBits st))
      by (rewrite Z.ones_equiv; lia).
    rewrite Z.lor_spec, Z.shiftl_spec, Z.land_spec, Z.testbit_ones,
      Z.shiftr_spec by lia.
    destruct (Z.ltb_spec j (remainingBits st)) as [Hjr|Hjr].
    + (* a carried bit *)
      rewrite (Z.testbit_neg_r b) by lia. cbn [andb orb].
      destruct (Hlast ltac:(lia)) as [Hv1 Hlv].
      replace (j <? 6) with true by (symmetry; apply Z.ltb_lt; lia).
      destruct (div_mod_8 (Z.of_nat v - 1) (j + (8 - remainingBits st))
                  (6 * Z.of_nat k + j)) as [-> ->]; try lia.
      rewrite Hlv. f_equal. f_equal. lia.
    + rewrite (byte_high_bits (lastValue st)) by (try exact Hl; lia).
      rewrite orb_false_r.
      replace (0 <=? j - remainingBits st) with true
        by (symmetry; apply Z.leb_le; lia).
      destruct (Z.ltb_spec j 6) as [Hj6|Hj6].
      * replace (j - remainingBits st <? 6 - remainingBits st) with true
          by (symmetry; apply Z.ltb_lt; lia).
        rewrite !andb_true_r.
        destruct (div_mod_8 (Z.of_nat v) (j - remainingBits st)
                    (6 * Z.of_nat k + j)) as [-> ->]; try lia.
        rewrite Nat2Z.id. reflexivity.
      * replace (j - remainingBits st <? 6 - remainingBits st) with false
          by (symmetry; apply Z.ltb_ge; lia).
        apply andb_false_r.
Qed.

(** X3.  The groups are the bits of the string table from the offset on,
    taken six by six from the lowest bit of the first byte, with zero
    bits past the end of the table: the group of turn [k] is the number
    made of the bits [6k] to [6k + 5]. *)
Theorem groups_are_stream_bits (table : list Z) (offset : Z) (k : nat) :
  Forall is_byte table ->
  fst (next_group table (state_after k table (start offset)))
  = (stream table offset / 2 ^ (6 * Z.of_nat k)) mod 2 ^ 6.
Proof.
  intros Ht. apply Z.bits_inj'. intros j Hj.
  rewrite stream_bit by (try assumption; lia).
  apply (group_bit table offset k); try assumption.
  apply (before_turn_after table offset Ht k O). apply before_turn_start.
Qed.

(** The bytes [21 84 10 00] hold the groups 33, 16, 8 and 4. *)
Lemma groups_are_stream_bits_witness :
  Forall is_byte [0x21; 0x84; 0x10; 0]
  /\ fst (next_group [0x21; 0x84; 0x10; 0]
            (state_after 2 [0x21; 0x84; 0x10; 0] (start 0))) = 8
  /\ extract (enough [0x21; 0x84; 0x10; 0]) [0x21; 0x84; 0x10; 0] 0
     = Some [33; 16; 8; 4; 0].
Proof.
  assert (Ht : Forall is_byte [0x21; 0x84; 0x10; 0])
    by (repeat constructor; unfold is_byte; lia).
  split; [exact Ht|]. split; [|reflexivity].
  rewrite (groups_are_stream_bits [0x21; 0x84; 0x10; 0] 0 2 Ht).
  reflexivity.
Defined.

(** * More of the code *)

(** ** [Padding] *)

(** X4.  For a positive [pad], [Padding(num, pad)] is the least multiple
    of [pad] that is not below [num], and [Padding(num, pad, True)] is
    what it adds to [num], a number below [pad]. *)
Theorem Padding_least_multiple (num pad : Z) :
  0 < pad ->
  Padding num pad false mod pad = 0
  /\ num <= Padding num pad false < num + pad
  /\ (forall m, m mod pad = 0 -> num <= m -> Padding num pad false <= m)
  /\ Padding num pad false = num + Padding num pad true
  /\ 0 <= Padding num pad true < pad.
Proof.
  intros Hp. unfold Padding.
  pose proof (Z.mod_pos_bound num pad Hp) as B.
  pose proof (Z.div_mod num pad ltac:(lia)) as D.
  destruct (num mod pad =? 0) eqn:E.
  - apply Z.eqb_eq in E. repeat split; try lia.
  - apply Z.eqb_neq in E.
    assert (M : (num + pad - num mod pad) mod pad = 0).
    { replace (num + pad - num mod pad) with ((num / pad + 1) * pad) by lia.
      apply Z.mod_mul. lia. }
    repeat split; try lia.
    intros m Hm Hle.
    pose proof (Z.div_mod m pad ltac:(lia)) as Dm. rewrite Hm in Dm.
    assert (num / pad < m / pad) by nia.
    nia.
Qed.

Lemma Padding_least_multiple_witness :
  0 < 0x800
  /\ Padding 2049 0x800 false = 4096 /\ Padding 2049 0x800 true = 2047.
Proof.
  split; [lia|].
  destruct (Padding_least_multiple 2049 0x800 ltac:(lia))
    as (_ & _ & _ & H & _).
  split; [|reflexivity]. rewrite H. reflexivity.
Defined.

(** ** [getDir] and [isDir] *)

Lemma split_not_nil (sep : Z) (s : list Z) : split sep s <> [].
Proof.
  destruct s as [|x s]; simpl; [discriminate|].
  destruct (x =? sep); [discriminate|].
  destruct (split sep s); discriminate.
Qed.

Lemma split_app (sep : Z) (b : list Z) :
  forall a, split sep (a ++ sep :: b) = split sep a ++ split sep b.
Proof.
  induction a as [|x a IH]; simpl.
  - rewrite Z.eqb_refl. reflexivity.
  - rewrite IH. destruct (x =? sep); [reflexivity|].
    pose proof (split_not_nil sep a) as Hn.
    destruct (split sep a) as [|p ps]; [congruence | reflexivity].
Qed.

Lemma split_no_sep (sep : Z) :
  forall s, ~ In sep s -> split sep s = [s].
Proof.
  induction s as [|x s IH]; intros H; [reflexivity|].
  simpl. destruct (Z.eqb_spec x sep) as [->|Hne].
  - exfalso. apply H. left. reflexivity.
  - rewrite IH by (intros Hin; apply H; right; exact Hin). reflexivity.
Qed.

(** ["/".join(s.split("/"))] is [s]. *)
Lemma join_split (sep : Z) : forall s, Py.join sep (split sep s) = s.
Proof.
  induction s as [|x s IH]; [reflexivity|].
  simpl. pose proof (split_not_nil sep s) as Hn.
  destruct (Z.eqb_spec x sep) as [->|Hne].
  - destruct (split sep s) as [|p ps]; [congruence|].
    change (Py.join sep ([] :: p :: ps))
      with ([] ++ sep :: Py.join sep (p :: ps)).
    rewrite IH. reflexivity.
  - destruct (split sep s) as [|p ps]; [congruence|].
    destruct ps as [|q ps].
    + simpl in *. congruence.
    + change (Py.join sep ((x :: p) :: q :: ps))
        with (x :: (p ++ sep :: Py.join sep (q :: ps))).
      change (Py.join sep (p :: q :: ps))
        with (p ++ sep :: Py.join sep (q :: ps)) in IH.
      rewrite IH. reflexivity.
Qed.

Lemma endswith_app (c : Z) (n : list Z) :
  forall d x, Py.endswith (d ++ x :: n) c = Py.endswith (x :: n) c.
Proof.
  induction d as [|y d IH]; intros x; [reflexivity|].
  rewrite <- (IH x). destruct d; reflexivity.
Qed.

Lemma endswith_no_sep (c : Z) :
  forall n, ~ In c n -> Py.endswith n c = false.
Proof.
  induction n as [|y n IH]; intros H; [reflexivity|].
  destruct n as [|z n].
  - simpl. apply Z.eqb_neq. intros ->. apply H. left. reflexivity.
  - change (Py.endswith (y :: z :: n) c) with (Py.endswith (z :: n) c).
    apply IH. intros Hin. apply H. right. exact Hin.
Qed.

(** X5.  [getDir] gives what stands before the last "/" of the path, and
    the empty string for a path without "/".  So a directory entry
    [d + "/"] has [d] itself as its directory, and [isDir] holds for
    it. *)
Theorem getDir_before_last_slash (e : TOCEntry) (d name : list Z) :
  ~ In slash name ->
  (filepath e = d ++ slash :: name -> getDir e = d)
  /\ (filepath e = name -> getDir e = [])
  /\ (filepath e = d ++ [slash] -> getDir e = d /\ isDir e = true)
  /\ (filepath e = d ++ slash :: name -> name <> [] -> isDir e = false).
Proof.
  intros Hn.
  assert (H1 : forall n, ~ In slash n ->
                filepath e = d ++ slash :: n -> getDir e = d).
  { intros n Hnn Hp. unfold getDir, dirname. rewrite Hp, split_app.
    rewrite (split_no_sep slash n Hnn).
    pose proof (split_not_nil slash d) as Hd.
    replace (1 <? Py.len (split slash d ++ [n])) with true.
    - rewrite slice_all_but_last. apply join_split.
    - symmetry. apply Z.ltb_lt. rewrite len_app_one. unfold Py.len.
      destruct (split slash d); [congruence | simpl; lia]. }
  split; [apply H1; exact Hn|]. split; [|split].
  - intros Hp. unfold getDir, dirname. rewrite Hp.
    rewrite (split_no_sep slash name Hn). reflexivity.
  - intros Hp. split.
    + apply (H1 []); [intros []|exact Hp].
    + unfold isDir. rewrite Hp, endswith_app. apply Z.eqb_refl.
  - intros Hp Hne. unfold isDir. rewrite Hp, endswith_app.
    destruct name as [|c name]; [congruence|].
    change (Py.endswith (slash :: c :: name) slash)
      with (Py.endswith (c :: name) slash).
    apply endswith_no_sep. exact Hn.
Qed.

Lemma getDir_before_last_slash_witness :
  ~ In slash (Py.str "b.txt")
  /\ getDir (set_filepath (entry_at 0) (Py.str "sub/deep/b.txt"))
     = Py.str "sub/deep".
Proof.
  assert (Hn : ~ In slash (Py.str "b.txt"))
    by (vm_compute; intuition discriminate).
  split; [exact Hn|].
  exact (proj1 (getDir_before_last_slash
                  (set_filepath (entry_at 0) (Py.str "sub/deep/b.txt"))
                  (Py.str "sub/deep") (Py.str "b.txt") Hn) eq_refl).
Defined.

(** ** The raw string table, for any table *)

Lemma skipn_nth_error {A} (l : list A) :
  forall (p : nat) (b : A),
    nth_error l p = Some b -> skipn p l = b :: skipn (S p) l.
Proof.
  induction l as [|x l IH]; intros [|p] b H; try discriminate.
  - injection H as ->. reflexivity.
  - simpl in H. apply IH in H. exact H.
Qed.

Lemma raw_loop_prefix (table : list Z) :
  forall (fuel p : nat) (acc out : list Z),
    raw_loop fuel table p acc = Some out ->
    exists name post,
      out = acc ++ name /\ Forall (fun b => b <> 0) name
      /\ skipn p table = name ++ 0 :: post.
Proof.
  induction fuel as [|f IH]; intros p acc out H; [discriminate|].
  simpl in H. destruct (nth_error table p) as [b|] eqn:Hb.
  - pose proof (skipn_nth_error table p b Hb) as Hs.
    destruct (Z.eqb_spec b 0) as [->|Hne].
    + injection H as <-. exists [], (skipn (S p) table).
      rewrite app_nil_r. repeat split; [constructor | exact Hs].
    + apply IH in H. destruct H as (name & post & -> & Hnz & Hsk).
      exists (b :: name), post. rewrite <- app_assoc. split; [reflexivity|].
      split; [constructor; assumption|]. rewrite Hs, Hsk. reflexivity.
  - apply IH in H. exact H.
Qed.

(** X6.  For every string table and offset, the loop of the "DAVE" branch
    returns a name exactly when the table, from the offset on, is that
    name, free of zero bytes, and then a zero byte: the name is the bytes
    up to the first zero byte, whatever follows. *)
Theorem raw_decode_up_to_first_zero (table : list Z) (offset : Z)
  (name : list Z) :
  (exists fuel, raw_decode fuel table offset = Some name)
  <-> (Forall (fun b => b <> 0) name
       /\ exists post, skipn (Z.to_nat offset) table = name ++ 0 :: post).
Proof.
  unfold raw_decode. split.
  - intros (fuel & H). apply raw_loop_prefix in H.
    destruct H as (n & post & -> & Hnz & Hs). simpl. eauto.
  - intros (Hnz & post & Hs). exists (S (length name)).
    assert (Hlen : (Z.to_nat offset <= length table)%nat).
    { destruct (Nat.le_gt_cases (Z.to_nat offset) (length table)) as [H|H];
        [exact H|].
      rewrite skipn_all2 in Hs by lia. destruct name; discriminate Hs. }
    rewrite <- (firstn_skipn (Z.to_nat offset) table) at 1. rewrite Hs.
    replace (Z.to_nat offset) with (length (firstn (Z.to_nat offset) table))
      at 2 by (rewrite length_firstn; lia).
    apply (raw_loop_reads_name name _ post [] _ Hnz). lia.
Qed.

(** ** The records of the table of contents *)

Lemma pack_I_some (v : Z) : u32 v -> Py.pack_I v = Some (Py.to_bytes 4 v).
Proof.
  intros [H0 H1]. unfold Py.pack_I.
  apply Z.leb_le in H0. apply Z.ltb_lt in H1. rewrite H0, H1. reflexivity.
Qed.

Lemma pack_I_none (v : Z) : ~ u32 v -> Py.pack_I v = None.
Proof.
  intros H. unfold Py.pack_I.
  destruct (Z.leb_spec 0 v); [|reflexivity].
  destruct (Z.ltb_spec v (2 ^ 32)); [|reflexivity].
  exfalso. apply H. split; assumption.
Qed.

Lemma u32_dec (v : Z) : {u32 v} + {~ u32 v}.
Proof.
  unfold u32. destruct (Z_le_dec 0 v); [|right; lia].
  destruct (Z_lt_dec v (2 ^ 32)); [left; lia | right; lia].
Qed.

Lemma pack_entry_fits (e : TOCEntry) :
  Py.pack_Is [nameOffset e; fileOffset e; uncompressedSize e;
              compressedSize e] <> None <-> fits e.
Proof.
  unfold fits. cbn [Py.pack_Is].
  destruct (u32_dec (nameOffset e)) as [Ha|Ha];
    [rewrite (pack_I_some _ Ha) | rewrite (pack_I_none _ Ha)];
    [|split; [congruence | tauto]].
  destruct (u32_dec (fileOffset e)) as [Hb|Hb];
    [rewrite (pack_I_some _ Hb) | rewrite (pack_I_none _ Hb)];
    [|split; [congruence | tauto]].
  destruct (u32_dec (uncompressedSize e)) as [Hc|Hc];
    [rewrite (pack_I_some _ Hc) | rewrite (pack_I_none _ Hc)];
    [|split; [congruence | tauto]].
  destruct (u32_dec (compressedSize e)) as [Hd|Hd];
    [rewrite (pack_I_some _ Hd) | rewrite (pack_I_none _ Hd)];
    [|split; [congruence | tauto]].
  split; [tauto | discriminate].
Qed.

Lemma pack_entries_fits :
  forall es, pack_entries es <> None <-> Forall fits es.
Proof.
  induction es as [|e es IH]; [split; [constructor | discriminate]|].
  cbn [pack_entries]. pose proof (pack_entry_fits e) as He.
  destruct (Py.pack_Is [nameOffset e; fileOffset e; uncompressedSize e;
                        compressedSize e]) as [b|].
  - destruct (pack_entries es) as [bs|].
    + split; [|discriminate]. intros _. constructor.
      * apply He. discriminate.
      * apply IH. discriminate.
    + split; [congruence|]. intros H. inversion H; subst.
      apply IH. assumption.
  - split; [congruence|]. intros H. inversion H; subst.
    apply He. assumption.
Qed.

Lemma to_bytes_bytes : forall n v, Forall is_byte (Py.to_bytes n v).
Proof.
  induction n as [|n IH]; intros v; simpl; constructor; [|apply IH].
  apply Z.mod_pos_bound. lia.
Qed.

Lemma pack_Is_bytes :
  forall vs b, Py.pack_Is vs = Some b -> Forall is_byte b.
Proof.
  induction vs as [|v vs IH]; intros b H.
  - injection H as <-. constructor.
  - apply pack_Is_inv in H. destruct H as (_ & bs & Hbs & ->).
    apply Forall_app. split; [apply to_bytes_bytes | apply IH, Hbs].
Qed.

Lemma pack_entries_bytes :
  forall es b, pack_entries es = Some b -> Forall is_byte b.
Proof.
  induction es as [|e es IH]; intros b H.
  - injection H as <-. constructor.
  - cbn [pack_entries] in H.
    destruct (Py.pack_Is _) as [b1|] eqn:E1; [|discriminate].
    destruct (pack_entries es) as [bs|] eqn:E2; [|discriminate].
    injection H as <-. apply Forall_app.
    split; [eapply pack_Is_bytes; eauto | apply IH; reflexivity].
Qed.

(** X7.  [struct.pack("<IIII", ...)] of the entries raises exactly when a
    value of an entry is outside [0, 2^32).  Otherwise it writes 16 bytes
    for each entry, and [TOCEntry(file)], called once for each at the
    place where they stand in a file, reads the four values of every entry
    back and leaves the file after the last of them. *)
Theorem toc_records_round_trip (es : list TOCEntry) :
  (pack_entries es <> None <-> Forall fits es)
  /\ forall bytes pre post,
       pack_entries es = Some bytes ->
       length bytes = (16 * length es)%nat
       /\ Forall is_byte bytes
       /\ read_entries (length es) (pre ++ bytes ++ post) (length pre)
          = (map (fun e => set_filepath e []) es,
             (length pre + 16 * length es)%nat).
Proof.
  split; [apply pack_entries_fits|].
  intros bytes pre post H.
  destruct (read_entries_at es bytes pre post H) as [Hr Hl].
  split; [exact Hl|]. split; [exact (pack_entries_bytes es bytes H) | exact Hr].
Qed.

(** ** The loop that writes the files *)

(** What the [with open] block does for an entry, whatever the position
    of the file before. *)
Lemma extract_file_stored (inflate : list Z -> option (list Z))
  (e : TOCEntry) (file : list Z) (p : nat) :
  extract_file inflate e file p
  = (if isCompressed e then
       match inflate (stored file e) with
       | Some plain => ([WriteFile (filepath e) plain], None)
       | None => ([WriteFile (filepath e) []], Some ZlibError)
       end
     else ([WriteFile (filepath e) (stored file e)], None),
     (Z.to_nat (fileOffset e) + length (stored file e))%nat).
Proof.
  unfold extract_file, bind, seek, read, ret, stored.
  destruct (isCompressed e); [destruct (inflate _)|]; reflexivity.
Qed.

Lemma extract_entries_position (inflate : list Z -> option (list Z))
  (root : bool) (file : list Z) :
  forall (es : list TOCEntry) (p q : nat),
    fst (extract_entries inflate root es file p)
    = fst (extract_entries inflate root es file q).
Proof.
  induction es as [|e es IH]; intros p q; [reflexivity|].
  cbn [extract_entries]. destruct (negb root); [reflexivity|].
  destruct (isDir e).
  - unfold bind. specialize (IH p q).
    destruct (extract_entries inflate root es file p) as [r1 p1].
    destruct (extract_entries inflate root es file q) as [r2 p2].
    simpl in *. subst. reflexivity.
  - unfold bind. rewrite !extract_file_stored.
    set (w := if isCompressed e then _ else _).
    destruct (snd w); [reflexivity|].
    set (p' := (Z.to_nat (fileOffset e) + length (stored file e))%nat).
    destruct (extract_entries inflate root es file p') as [r1 p1].
    reflexivity.
Qed.

(** One turn of the loop, with an output directory that exists. *)
Lemma extract_entries_cons (inflate : list Z -> option (list Z))
  (e : TOCEntry) (es : list TOCEntry) (file : list Z) (p : nat) :
  fst (extract_entries inflate true (e :: es) file p)
  = if isDir e then
      after [MakeDirs (getDir e)]
            (fst (extract_entries inflate true es file p))
    else
      match snd (fst (extract_file inflate e file p)) with
      | Some _ =>
          after [MakeDirs (getDir e)] (fst (extract_file inflate e file p))
      | None =>
          after (MakeDirs (getDir e)
                 :: fst (fst (extract_file inflate e file p)))
                (fst (extract_entries inflate true es file p))
      end.
Proof.
  cbn [extract_entries negb]. destruct (isDir e).
  - unfold bind.
    destruct (extract_entries inflate true es file p) as [r1 p1].
    reflexivity.
  - unfold bind. destruct (extract_file inflate e file p) as [w p1] eqn:Ew.
    cbn [fst snd]. destruct (snd w); [reflexivity|].
    rewrite (extract_entries_position inflate true file es p p1).
    destruct (extract_entries inflate true es file p1) as [r1 p2].
    reflexivity.
Qed.

(** X8.  An entry that is not compressed never makes [unpack] raise,
    whatever its offset and size: the file written holds the bytes of the
    archive from [fileOffset] on, [compressedSize] of them or as many as
    the archive still has, and is empty when the offset is at or past the
    end of the archive. *)
Theorem extract_file_clipped (inflate : list Z -> option (list Z))
  (e : TOCEntry) (file : list Z) (p : nat) :
  isCompressed e = false ->
  fst (extract_file inflate e file p)
  = ([WriteFile (filepath e) (stored file e)], None)
  /\ (length (stored file e)
      = Nat.min (Z.to_nat (compressedSize e))
                (length file - Z.to_nat (fileOffset e)))%nat
  /\ ((length file <= Z.to_nat (fileOffset e))%nat -> stored file e = [])
  /\ ((Z.to_nat (fileOffset e) + Z.to_nat (compressedSize e)
       <= length file)%nat ->
      length (stored file e) = Z.to_nat (compressedSize e)).
Proof.
  intros Hc. rewrite extract_file_stored, Hc. cbn [fst].
  assert (Hl : (length (stored file e)
                = Nat.min (Z.to_nat (compressedSize e))
                          (length file - Z.to_nat (fileOffset e)))%nat)
    by (unfold stored; rewrite length_firstn, length_skipn; reflexivity).
  split; [reflexivity|]. split; [exact Hl|]. split.
  - intros H. apply length_zero_iff_nil. lia.
  - intros H. lia.
Qed.

(** An entry of 100 bytes at the offset 8192 of a file of 4 bytes. *)
Lemma extract_file_clipped_witness :
  isCompressed {| nameOffset := 0; fileOffset := 8192;
                  uncompressedSize := 100; compressedSize := 100;
                  filepath := Py.str "a" |} = false
  /\ fst (extract_file (fun _ => None)
            {| nameOffset := 0; fileOffset := 8192;
               uncompressedSize := 100; compressedSize := 100;
               filepath := Py.str "a" |} DAVE O)
     = ([WriteFile (Py.str "a") []], None).
Proof.
  split; [reflexivity|].
  exact (proj1 (extract_file_clipped (fun _ => None)
                  {| nameOffset := 0; fileOffset := 8192;
                     uncompressedSize := 100; compressedSize := 100;
                     filepath := Py.str "a" |} DAVE O eq_refl)).
Defined.

Lemma after_nil (r : outcome) : after [] r = r.
Proof. destruct r; reflexivity. Qed.

(** X9.  The loop takes the entries one after the other and stops at the
    first exception: the entries of [a ++ b] give what those of [a] give
    and, if that is no exception, what those of [b] give after them.  So
    when the stream of a compressed entry cannot be inflated, the entries
    before it are done, its own file is left empty, and no entry after it
    is touched. *)
Theorem extract_entries_sequential (inflate : list Z -> option (list Z))
  (a b : list TOCEntry) (file : list Z) (p : nat) :
  fst (extract_entries inflate true (a ++ b) file p)
  = match snd (fst (extract_entries inflate true a file p)) with
    | Some _ => fst (extract_entries inflate true a file p)
    | None =>
        after (fst (fst (extract_entries inflate true a file p)))
              (fst (extract_entries inflate true b file p))
    end
  /\ forall e,
       snd (fst (extract_entries inflate true a file p)) = None ->
       isDir e = false -> isCompressed e = true ->
       inflate (stored file e) = None ->
       fst (extract_entries inflate true (a ++ e :: b) file p)
       = (fst (fst (extract_entries inflate true a file p))
          ++ [MakeDirs (getDir e); WriteFile (filepath e) []],
          Some ZlibError).
Proof.
  assert (Happ : forall b',
    fst (extract_entries inflate true (a ++ b') file p)
    = match snd (fst (extract_entries inflate true a file p)) with
      | Some _ => fst (extract_entries inflate true a file p)
      | None =>
          after (fst (fst (extract_entries inflate true a file p)))
                (fst (extract_entries inflate true b' file p))
      end).
  { intros b'. induction a as [|x a IH].
    - simpl app. cbn [extract_entries ret fst snd]. rewrite after_nil.
      reflexivity.
    - change ((x :: a) ++ b') with (x :: (a ++ b')).
      rewrite !extract_entries_cons, IH.
      destruct (fst (extract_entries inflate true a file p)) as [opsa erra].
      destruct (fst (extract_entries inflate true b' file p)) as [opsb errb].
      destruct (fst (extract_file inflate x file p)) as [opsx errx].
      unfold after. cbn [fst snd].
      destruct (isDir x), errx, erra; cbn [fst snd app];
        rewrite <- ?app_assoc; reflexivity. }
  split; [apply Happ|].
  intros e Ha Hd Hc Hi. rewrite Happ, Ha.
  rewrite extract_entries_cons, Hd, extract_file_stored, Hc, Hi.
  cbn [fst snd after]. reflexivity.
Qed.

Lemma extract_file_ops (inflate : list Z -> option (list Z)) (e : TOCEntry)
  (file : list Z) (p : nat) :
  exists data,
    fst (fst (extract_file inflate e file p)) = [WriteFile (filepath e) data]
    /\ snd (fst (extract_file inflate e file p)) <> Some OutputDirectoryMissing.
Proof.
  rewrite extract_file_stored. cbn [fst].
  destruct (isCompressed e); [destruct (inflate (stored file e))|];
    cbn [fst snd]; eexists; (split; [reflexivity | discriminate]).
Qed.

(** X10.  With an output directory that exists, the loop writes no file
    for a directory entry: every file written is the path of an entry that
    is no directory, and every directory made is the directory of an
    entry.  When the loop ends without an exception it has made the
    directory of every entry (for a directory entry [d + "/"], [d]
    itself) and written every entry that is no directory.  It never
    raises "Output directory does not exist". *)
Theorem extract_entries_effects (inflate : list Z -> option (list Z))
  (es : list TOCEntry) (file : list Z) (p : nat) :
  (forall path data,
     In (WriteFile path data)
        (fst (fst (extract_entries inflate true es file p))) ->
     exists e, In e es /\ filepath e = path /\ isDir e = false)
  /\ (forall d,
        In (MakeDirs d) (fst (fst (extract_entries inflate true es file p))) ->
        exists e, In e es /\ getDir e = d)
  /\ (snd (fst (extract_entries inflate true es file p)) = None ->
      forall e, In e es ->
        In (MakeDirs (getDir e))
           (fst (fst (extract_entries inflate true es file p)))
        /\ (isDir e = false ->
            exists data,
              In (WriteFile (filepath e) data)
                 (fst (fst (extract_entries inflate true es file p)))))
  /\ snd (fst (extract_entries inflate true es file p))
     <> Some OutputDirectoryMissing.
Proof.
  induction es as [|x es IH].
  - cbn [extract_entries ret fst snd].
    repeat split; try (intros; contradiction); discriminate.
  - rewrite extract_entries_cons.
    destruct IH as (IHw & IHd & IHall & IHerr).
    destruct (fst (extract_entries inflate true es file p)) as [ops err].
    cbn [fst snd] in *.
    destruct (extract_file_ops inflate x file p) as (data & Hx & Hxe).
    destruct (fst (extract_file inflate x file p)) as [opsx errx].
    cbn [fst snd] in *. subst opsx.
    destruct (isDir x) eqn:Hd; [|destruct errx as [ex|]];
      unfold after; cbn [fst snd app].
    + split; [|split; [|split]].
      * intros path dt [H|H]; [discriminate|].
        destruct (IHw path dt H) as (e & He & Hp & Hn).
        exists e. split; [right; exact He | auto].
      * intros d [H|H].
        -- injection H as <-. exists x. split; [left|]; reflexivity.
        -- destruct (IHd d H) as (e & He & Hg).
           exists e. split; [right; exact He | exact Hg].
      * intros He e [<-|Hin].
        -- split; [left; reflexivity | congruence].
        -- destruct (IHall He e Hin) as [H1 H2].
           split; [right; exact H1|].
           intros Hn. destruct (H2 Hn) as [dt Hdt].
           exists dt. right. exact Hdt.
      * exact IHerr.
    + split; [|split; [|split]].
      * intros path dt [H|[H|[]]]; [discriminate|].
        injection H as <- <-. exists x.
        split; [left; reflexivity | auto].
      * intros d [H|[H|[]]]; [|discriminate].
        injection H as <-. exists x. split; [left|]; reflexivity.
      * discriminate.
      * exact Hxe.
    + split; [|split; [|split]].
      * intros path dt [H|[H|H]]; [discriminate| |].
        -- injection H as <- <-. exists x.
           split; [left; reflexivity | auto].
        -- destruct (IHw path dt H) as (e & He & Hp & Hn).
           exists e. split; [right; exact He | auto].
      * intros d [H|[H|H]]; [|discriminate|].
        -- injection H as <-. exists x. split; [left|]; reflexivity.
        -- destruct (IHd d H) as (e & He & Hg).
           exists e. split; [right; exact He | exact Hg].
      * intros He e [<-|Hin].
        -- split; [left; reflexivity|].
           intros _. exists data. right. left. reflexivity.
        -- destruct (IHall He e Hin) as [H1 H2].
           split; [right; right; exact H1|].
           intros Hn. destruct (H2 Hn) as [dt Hdt].
           exists dt. right. right. exact Hdt.
      * exact IHerr.
Qed.

(** ** The order of the entries of [pack] *)

Lemma leb_total (a : list Z) : forall b, path_le a b \/ path_le b a.
Proof.
  unfold path_le. induction a as [|x a IH]; intros [|y b]; simpl; auto.
  destruct (Z.ltb_spec x y); [auto|].
  destruct (Z.ltb_spec y x); [auto|]. apply IH.
Qed.

(** The order is the one of the dictionary on the codes of the
    characters. *)
Lemma leb_lexicographic (a : list Z) :
  forall b,
    path_le a b
    <-> (exists c, b = a ++ c)
        \/ (exists pre x y a' b',
              a = pre ++ x :: a' /\ b = pre ++ y :: b' /\ x < y).
Proof.
  unfold path_le. induction a as [|x a IH]; intros b.
  - simpl. split; [intros _; left; exists b; reflexivity | reflexivity].
  - destruct b as [|y b]; simpl.
    + split; [discriminate|].
      intros [[c H]|(pre & u & v & a' & b' & _ & H & _)];
        [discriminate | destruct pre; discriminate].
    + destruct (Z.ltb_spec x y) as [Hxy|Hxy].
      * split; [|reflexivity]. intros _. right.
        exists [], x, y, a, b. auto.
      * destruct (Z.ltb_spec y x) as [Hyx|Hyx].
        -- split; [discriminate|].
           intros [[c H]|(pre & u & v & a' & b' & Ha & Hb & Huv)].
           ++ inversion H; subst. lia.
           ++ destruct pre as [|w pre]; simpl in *;
                inversion Ha; inversion Hb; subst; lia.
        -- assert (x = y) by lia. subst y. rewrite IH. split.
           ++ intros [[c ->]|(pre & u & v & a' & b' & -> & -> & Huv)].
              ** left. exists c. reflexivity.
              ** right. exists (x :: pre), u, v, a', b'. auto.
           ++ intros [[c H]|(pre & u & v & a' & b' & Ha & Hb & Huv)].
              ** inversion H; subst. left. exists c. reflexivity.
              ** destruct pre as [|w pre]; simpl in *;
                   inversion Ha; inversion Hb; subst; [lia|].
                 right. exists pre, u, v, a', b'. auto.
Qed.

Lemma insert_perm (p : list Z) :
  forall l, Permutation (Py.insert p l) (p :: l).
Proof.
  induction l as [|q l IH]; simpl; [reflexivity|].
  destruct (Py.leb p q); [reflexivity|].
  rewrite IH. apply perm_swap.
Qed.

Lemma insert_sorted (p : list Z) :
  forall l, Sorted path_le l -> Sorted path_le (Py.insert p l).
Proof.
  induction l as [|q l IH]; intros Hs; simpl.
  - constructor; constructor.
  - destruct (Py.leb p q) eqn:E.
    + constructor; [exact Hs | constructor; exact E].
    + inversion Hs as [|? ? Hl Hh]; subst.
      constructor; [apply IH; exact Hl|].
      assert (Hqp : path_le q p).
      { destruct (leb_total p q) as [H|H]; [unfold path_le in H; congruence|].
        exact H. }
      destruct l as [|r l]; simpl.
      * constructor. exact Hqp.
      * destruct (Py.leb p r); constructor; [exact Hqp|].
        inversion Hh; assumption.
Qed.

Lemma sort_sorted (l : list (list Z)) : Sorted path_le (Py.sort l).
Proof.
  unfold Py.sort. induction l as [|p l IH]; simpl; [constructor|].
  apply insert_sorted. exact IH.
Qed.

Lemma sort_perm (l : list (list Z)) : Permutation (Py.sort l) l.
Proof.
  unfold Py.sort. induction l as [|p l IH]; simpl; [reflexivity|].
  rewrite insert_perm. constructor. exact IH.
Qed.

Lemma pack_loop_paths (deflate : list Z -> list Z) (src : AssetSource)
  (compress : bool) :
  forall paths n0 f0,
    map filepath (map fst (pack_loop deflate src compress paths n0 f0))
    = paths.
Proof.
  induction paths as [|path rest IH]; intros n0 f0; [reflexivity|].
  cbn [pack_loop].
  destruct (payload deflate src compress path) as [[data us] cs].
  cbn [map fst filepath]. f_equal. apply IH.
Qed.

(** X11.  The entries of [pack] stand in the ascending order of their
    paths, the order of the dictionary on the character codes (a path
    before every path it begins), and their paths are the paths of the
    walk, each as often as the walk has it. *)
Theorem pack_entries_ascending (deflate : list Z -> list Z)
  (src : AssetSource) (compress : bool) :
  map filepath (map fst (layout deflate src compress)) = sorted_paths src
  /\ Sorted path_le (sorted_paths src)
  /\ Permutation (sorted_paths src) (listing src)
  /\ forall a b,
       path_le a b
       <-> (exists c, b = a ++ c)
           \/ (exists pre x y a' b',
                 a = pre ++ x :: a' /\ b = pre ++ y :: b' /\ x < y).
Proof.
  split; [apply pack_loop_paths|]. split; [apply sort_sorted|].
  split; [apply sort_perm | intros a b; apply leb_lexicographic].
Qed.

(** ** When [pack] raises, and the file it writes *)

Lemma len_nonneg {A} (l : list A) : 0 <= Py.len l.
Proof. unfold Py.len. lia. Qed.

Lemma Padding_ge (num : Z) : num <= Padding num PAD false.
Proof. destruct (Padding_rest num) as [-> H]. lia. Qed.

Lemma sum_len1_nonneg (l : list (list Z)) : 0 <= Py.sum_len1 l.
Proof.
  induction l as [|p l IH]; [change (Py.sum_len1 []) with 0; lia|].
  rewrite sum_len1_cons. pose proof (len_nonneg p). lia.
Qed.

Lemma sum_len1_firstn (paths : list (list Z)) :
  forall i, 0 <= raw_offset paths i <= Py.sum_len1 paths.
Proof.
  unfold raw_offset. induction paths as [|p paths IH]; intros i.
  - rewrite firstn_nil. change (Py.sum_len1 []) with 0. lia.
  - pose proof (len_nonneg p) as Hp.
    pose proof (sum_len1_nonneg paths) as Hs.
    destruct i as [|i].
    + cbn [firstn]. rewrite sum_len1_cons.
      change (Py.sum_len1 []) with 0. lia.
    + cbn [firstn]. rewrite !sum_len1_cons. pose proof (IH i). lia.
Qed.

Lemma payload_sizes (deflate : list Z -> list Z) (src : AssetSource)
  (compress : bool) (path : list Z) :
  snd (payload deflate src compress path)
  = Py.len (fst (fst (payload deflate src compress path)))
  /\ 0 <= snd (fst (payload deflate src compress path)).
Proof.
  unfold payload.
  destruct (negb (Py.endswith path slash)); [destruct compress|];
    cbn [fst snd]; split; try reflexivity; try apply len_nonneg; lia.
Qed.

Lemma blocks_multiple :
  forall blocks : list (list Z),
    Forall (fun b => Py.len b mod PAD = 0) blocks ->
    Py.len (concat blocks) mod PAD = 0.
Proof.
  induction blocks as [|b blocks IH]; intros H; [reflexivity|].
  inversion H as [|? ? Hb Hrest]; subst.
  cbn [concat]. rewrite len_app.
  rewrite <- Z.add_mod_idemp_l, Hb, Z.add_0_l by (unfold PAD; lia).
  apply IH, Hrest.
Qed.

Lemma payload_before_multiple (deflate : list Z -> list Z)
  (src : AssetSource) (compress : bool) (i : nat) :
  payload_before (layout deflate src compress) i mod PAD = 0
  /\ 0 <= payload_before (layout deflate src compress) i.
Proof.
  unfold payload_before. split; [|apply len_nonneg].
  apply blocks_multiple.
  pose proof (pack_loop_blocks deflate src compress (sorted_paths src) 0
                (0x800 + estimatedTOCSize src + estimatedStringTableSize src))
    as H.
  fold (layout deflate src compress) in H.
  rewrite Forall_forall in *. intros b Hb.
  apply in_map_iff in Hb. destruct Hb as (eb & <- & Hin).
  apply H. rewrite <- (firstn_skipn i (layout deflate src compress)).
  apply in_or_app. left. exact Hin.
Qed.

(** The entry at an index, with all its values. *)
Lemma layout_nth (deflate : list Z -> list Z) (src : AssetSource)
  (compress : bool) (i : nat) (e : TOCEntry) :
  nth_error (map fst (layout deflate src compress)) i = Some e ->
  exists path,
    nth_error (sorted_paths src) i = Some path
    /\ filepath e = path
    /\ nameOffset e = raw_offset (sorted_paths src) i
    /\ fileOffset e
       = 0x800 + estimatedTOCSize src + estimatedStringTableSize src
         + payload_before (layout deflate src compress) i
    /\ uncompressedSize e = snd (fst (payload deflate src compress path))
    /\ compressedSize e
       = Py.len (fst (fst (payload deflate src compress path)))
    /\ nth_error (map snd (layout deflate src compress)) i
       = Some (padded (fst (fst (payload deflate src compress path)))).
Proof.
  intros Hi.
  assert (Hlt : (i < length (sorted_paths src))%nat).
  { rewrite <- (layout_length deflate src compress), <- (length_map fst).
    apply nth_error_Some. congruence. }
  destruct (nth_error (sorted_paths src) i) as [path|] eqn:Hp;
    [|apply nth_error_None in Hp; lia].
  exists path. split; [reflexivity|].
  pose proof (pack_loop_nth deflate src compress (sorted_paths src) i path 0
                (0x800 + estimatedTOCSize src + estimatedStringTableSize src)
                Hp) as Hn.
  fold (layout deflate src compress) in Hn.
  rewrite nth_error_map, Hn in Hi. cbn [option_map fst] in Hi.
  injection Hi as <-. cbn [filepath nameOffset fileOffset uncompressedSize
                           compressedSize].
  rewrite nth_error_map, Hn. cbn [option_map snd].
  destruct (payload_sizes deflate src compress path) as [Hc _].
  repeat split; lia.
Qed.

Lemma header_fits (n t s : Z) :
  Py.pack_Is [n; t; s] <> None <-> u32 n /\ u32 t /\ u32 s.
Proof.
  cbn [Py.pack_Is].
  destruct (u32_dec n) as [Ha|Ha];
    [rewrite (pack_I_some _ Ha) | rewrite (pack_I_none _ Ha)];
    [|split; [congruence | tauto]].
  destruct (u32_dec t) as [Hb|Hb];
    [rewrite (pack_I_some _ Hb) | rewrite (pack_I_none _ Hb)];
    [|split; [congruence | tauto]].
  destruct (u32_dec s) as [Hc|Hc];
    [rewrite (pack_I_some _ Hc) | rewrite (pack_I_none _ Hc)];
    [|split; [congruence | tauto]].
  split; [tauto | discriminate].
Qed.

Lemma pack_some_iff (deflate : list Z -> list Z) (src : AssetSource)
  (compress : bool) :
  pack deflate src compress <> None
  <-> (Py.pack_Is [Py.len (sorted_paths src); estimatedTOCSize src;
                   estimatedStringTableSize src] <> None
       /\ pack_entries (map fst (layout deflate src compress)) <> None).
Proof.
  unfold pack.
  destruct (Py.pack_Is _) as [fields|];
    [|split; [congruence | tauto]].
  destruct (pack_entries _) as [T|]; [|split; [congruence | tauto]].
  split; [intros _; split; discriminate | discriminate].
Qed.

(** X12.  [pack] raises, and writes no file, exactly when the file offset
    or a size of some entry does not fit in 32 bits; the count of the
    entries, the two sizes of the header and the name offsets fit
    whenever the file offsets do. *)
Theorem pack_raises_on_overflow (deflate : list Z -> list Z)
  (src : AssetSource) (compress : bool) :
  pack deflate src compress <> None
  <-> Forall small (map fst (layout deflate src compress)).
Proof.
  rewrite pack_some_iff, header_fits, pack_entries_fits. split.
  - intros [_ H]. rewrite Forall_forall in *. intros e He.
    destruct (H e He) as (_ & Hf & Hu & Hc).
    unfold small, u32 in *. lia.
  - intros H.
    pose proof (len_nonneg (sorted_paths src)) as Hn.
    pose proof (Padding_ge (Py.len (sorted_paths src) * 16)) as Ht.
    fold (estimatedTOCSize src) in Ht.
    pose proof (Padding_ge (Py.sum_len1 (sorted_paths src))) as Hs.
    fold (estimatedStringTableSize src) in Hs.
    pose proof (sum_len1_nonneg (sorted_paths src)) as Hs0.
    assert (Hall : Forall fits (map fst (layout deflate src compress))
                   /\ (sorted_paths src <> [] ->
                       0x800 + estimatedTOCSize src
                       + estimatedStringTableSize src < 2 ^ 32)).
    { split.
      - rewrite Forall_forall in *. intros e He.
        destruct (H e He) as (Hf & Hu & Hc).
        apply In_nth_error in He. destruct He as [i Hi].
        destruct (layout_nth deflate src compress i e Hi)
          as (path & Hp & _ & Hno & Hfo & Hus & Hcs & _).
        destruct (payload_before_multiple deflate src compress i) as [_ Hb].
        destruct (payload_sizes deflate src compress path) as [_ Hu0].
        pose proof (sum_len1_firstn (sorted_paths src) i) as Hi0.
        pose proof (len_nonneg (fst (fst (payload deflate src compress path)))).
        unfold fits, u32. lia.
      - intros Hne.
        destruct (sorted_paths src) as [|p0 rest] eqn:Es; [congruence|].
        assert (Hl : (0 < length (map fst (layout deflate src compress)))%nat).
        { rewrite length_map, layout_length, Es. simpl. lia. }
        destruct (nth_error (map fst (layout deflate src compress)) O)
          as [e0|] eqn:E0; [|apply nth_error_None in E0; lia].
        rewrite Forall_forall in H.
        destruct (H e0 (nth_error_In _ _ E0)) as (Hf & _).
        destruct (layout_nth deflate src compress O e0 E0)
          as (_ & _ & _ & _ & Hfo & _).
        destruct (payload_before_multiple deflate src compress O) as [_ Hb].
        lia. }
    destruct Hall as [Hfit Hbase]. split; [|exact Hfit].
    destruct (sorted_paths src) as [|p0 rest] eqn:Es.
    + unfold estimatedTOCSize, estimatedStringTableSize. rewrite Es.
      unfold u32. vm_compute. intuition congruence.
    + specialize (Hbase ltac:(discriminate)). unfold u32. lia.
Qed.

(** X13.  The file [pack] writes begins with "DAVE"; it holds the header
    of 0x800 bytes, the table of contents of [estimatedTOCSize] bytes, the
    padded string table and the blocks of the payloads, so that its length
    is a multiple of 0x800. *)
Theorem pack_file_length (deflate : list Z -> list Z) (src : AssetSource)
  (compress : bool) (file : list Z) :
  pack deflate src compress = Some file ->
  firstn 4 file = DAVE
  /\ Py.len file
     = 0x800 + estimatedTOCSize src
       + Py.len (padded (raw_encode (sorted_paths src)))
       + Py.len (concat (map snd (layout deflate src compress)))
  /\ Py.len file mod 0x800 = 0
  /\ 0x800 <= Py.len file.
Proof.
  intros Hp.
  destruct (pack_inv deflate src compress file Hp)
    as (T & Et & Hn & Ht & Hs & ->).
  pose proof (TOC_length deflate src compress T Et) as HT.
  pose proof (header_length (Py.len (sorted_paths src))
                (estimatedTOCSize src) (estimatedStringTableSize src)) as Hh.
  assert (Hlen :
    Py.len (DAVE ++ Py.to_bytes 4 (Py.len (sorted_paths src))
            ++ Py.to_bytes 4 (estimatedTOCSize src)
            ++ Py.to_bytes 4 (estimatedStringTableSize src)
            ++ Py.zeros 0x7F0 ++ padded T
            ++ padded (raw_encode (sorted_paths src))
            ++ concat (map snd (layout deflate src compress)))
    = 0x800 + estimatedTOCSize src
      + Py.len (padded (raw_encode (sorted_paths src)))
      + Py.len (concat (map snd (layout deflate src compress)))).
  { replace (DAVE ++ Py.to_bytes 4 (Py.len (sorted_paths src))
             ++ Py.to_bytes 4 (estimatedTOCSize src)
             ++ Py.to_bytes 4 (estimatedStringTableSize src)
             ++ Py.zeros 0x7F0 ++ padded T
             ++ padded (raw_encode (sorted_paths src))
             ++ concat (map snd (layout deflate src compress)))
      with ((DAVE ++ Py.to_bytes 4 (Py.len (sorted_paths src))
             ++ Py.to_bytes 4 (estimatedTOCSize src)
             ++ Py.to_bytes 4 (estimatedStringTableSize src)
             ++ Py.zeros 0x7F0)
            ++ padded T ++ padded (raw_encode (sorted_paths src))
            ++ concat (map snd (layout deflate src compress)))
      by (rewrite <- !app_assoc; reflexivity).
    rewrite (len_app (DAVE ++ _)), (len_app (padded T)),
      (len_app (padded _)), HT.
    unfold Py.len at 1. rewrite Hh. lia. }
  split; [reflexivity|]. split; [exact Hlen|].
  rewrite Hlen.
  pose proof (Padding_multiple (Py.len (sorted_paths src) * 16)) as M1.
  fold (estimatedTOCSize src) in M1.
  pose proof (Padding_multiple (Py.len (raw_encode (sorted_paths src)))) as M2.
  rewrite <- len_padded in M2.
  pose proof (blocks_multiple (map snd (layout deflate src compress))) as M3.
  assert (M3' : Py.len (concat (map snd (layout deflate src compress)))
                mod PAD = 0).
  { apply M3. apply Forall_forall. intros b Hb.
    apply in_map_iff in Hb. destruct Hb as (eb & <- & Hin).
    pose proof (pack_loop_blocks deflate src compress (sorted_paths src) 0
                  (0x800 + estimatedTOCSize src
                   + estimatedStringTableSize src)) as H.
    rewrite Forall_forall in H. apply H. exact Hin. }
  pose proof (len_nonneg (padded (raw_encode (sorted_paths src)))).
  pose proof (len_nonneg (concat (map snd (layout deflate src compress)))).
  unfold PAD in *. split; [|lia].
  Z.to_euclidean_division_equations. lia.
Qed.

Lemma pack_file_length_witness :
  pack (fun data => data) scenario false = Some scenario_archive
  /\ Py.len scenario_archive = 5 * 0x800.
Proof.
  assert (Hp : pack (fun data => data) scenario false = Some scenario_archive)
    by (vm_compute; reflexivity).
  split; [exact Hp|].
  destruct (pack_file_length (fun data => data) scenario false
              scenario_archive Hp) as (_ & H & _).
  rewrite H. vm_compute. reflexivity.
Defined.

Lemma firstn_S_nth {A} (l : list A) :
  forall (i : nat) (x : A),
    nth_error l i = Some x -> firstn (S i) l = firstn i l ++ [x].
Proof.
  induction l as [|y l IH]; intros [|i] x H; try discriminate.
  - injection H as ->. reflexivity.
  - simpl in H.
    change (firstn (S (S i)) (y :: l)) with (y :: firstn (S i) l).
    change (firstn (S i) (y :: l)) with (y :: firstn i l).
    rewrite (IH i x H). reflexivity.
Qed.

(** X14.  In the table of contents of a file [pack] wrote, every file
    offset is a multiple of 0x800 and not below 0x800; the first is the
    end of the string table as the header gives it, and each next one is
    the offset before it plus the compressed size before it, padded to a
    multiple of 0x800 (a directory has the file offset of the entry after
    it). *)
Theorem pack_file_offsets (deflate : list Z -> list Z) (src : AssetSource)
  (compress : bool) (file : list Z) (i : nat) (e : TOCEntry) :
  pack deflate src compress = Some file ->
  nth_error (fileEntries (fst (read_archive file O))) i = Some e ->
  fileOffset e mod 0x800 = 0
  /\ 0x800 <= fileOffset e
  /\ (i = O ->
      fileOffset e
      = 0x800 + tocLength (fst (read_archive file O))
        + stringTableLength (fst (read_archive file O)))
  /\ forall e',
       nth_error (fileEntries (fst (read_archive file O))) (S i) = Some e' ->
       fileOffset e' = fileOffset e + Padding (compressedSize e) PAD false.
Proof.
  intros Hp. rewrite (read_archive_pack deflate src compress file Hp).
  cbn [fileEntries tocLength stringTableLength].
  rewrite (nth_error_map (fun e => set_filepath e []) i),
    (nth_error_map (fun e => set_filepath e []) (S i)).
  intros Hi.
  destruct (nth_error (map fst (layout deflate src compress)) i)
    as [e0|] eqn:E0; [|discriminate].
  cbn [option_map] in Hi. injection Hi as <-.
  cbn [fileOffset compressedSize set_filepath].
  destruct (layout_nth deflate src compress i e0 E0)
    as (path & Hpath & _ & _ & Hfo & _ & Hcs & Hblock).
  destruct (payload_before_multiple deflate src compress i) as [Hm Hb].
  pose proof (Padding_multiple (Py.len (sorted_paths src) * 16)) as M1.
  fold (estimatedTOCSize src) in M1.
  pose proof (Padding_multiple (Py.sum_len1 (sorted_paths src))) as M2.
  fold (estimatedStringTableSize src) in M2.
  pose proof (Padding_ge (Py.len (sorted_paths src) * 16)) as G1.
  fold (estimatedTOCSize src) in G1.
  pose proof (Padding_ge (Py.sum_len1 (sorted_paths src))) as G2.
  fold (estimatedStringTableSize src) in G2.
  pose proof (len_nonneg (sorted_paths src)).
  pose proof (sum_len1_nonneg (sorted_paths src)).
  split; [|split; [|split]].
  - rewrite Hfo. unfold PAD in *. Z.to_euclidean_division_equations. lia.
  - lia.
  - intros ->. rewrite Hfo. unfold payload_before. cbn [firstn map concat].
    change (Py.len []) with 0. lia.
  - intros e' He'.
    destruct (nth_error (map fst (layout deflate src compress)) (S i))
      as [e1|] eqn:E1; [|discriminate].
    cbn [option_map] in He'. injection He' as <-.
    cbn [fileOffset set_filepath].
    destruct (layout_nth deflate src compress (S i) e1 E1)
      as (_ & _ & _ & _ & Hfo1 & _).
    rewrite Hfo1, Hfo, Hcs. unfold payload_before.
    rewrite nth_error_map in Hblock.
    destruct (nth_error (layout deflate src compress) i) as [eb|] eqn:Eb;
      [|discriminate].
    cbn [option_map] in Hblock. injection Hblock as Hblock.
    rewrite (firstn_S_nth _ i eb Eb), map_app, concat_app, len_app.
    cbn [map concat]. rewrite app_nil_r, Hblock, len_padded. lia.
Qed.

(** The first entry of the scenario. *)
Lemma pack_file_offsets_witness :
  pack (fun data => data) scenario false = Some scenario_archive
  /\ nth_error (fileEntries (fst (read_archive scenario_archive O))) O
     = Some {| nameOffset := 0; fileOffset := 0x1800; uncompressedSize := 2;
               compressedSize := 2; filepath := [] |}
  /\ 0x1800 mod 0x800 = 0.
Proof.
  assert (Hp : pack (fun data => data) scenario false = Some scenario_archive)
    by (vm_compute; reflexivity).
  assert (E : nth_error (fileEntries (fst (read_archive scenario_archive O))) O
              = Some {| nameOffset := 0; fileOffset := 0x1800;
                        uncompressedSize := 2; compressedSize := 2;
                        filepath := [] |})
    by (vm_compute; reflexivity).
  split; [exact Hp|]. split; [exact E|].
  exact (proj1 (pack_file_offsets (fun data => data) scenario false
                  scenario_archive O _ Hp E)).
Defined.

(** ** The characters of a packed path *)

Lemma groups_bounded (table : list Z) :
  Forall is_byte table ->
  forall (n : nat) (st : bitstate),
    wf_state st -> Forall (fun g => 0 <= g < 64) (groups n table st).
Proof.
  intros Ht. induction n as [|n IH]; intros st Hst; [constructor|].
  cbn [groups].
  destruct (next_group_cases table st Ht Hst) as (_ & _ & _ & Hg & Hst').
  constructor; [exact Hg | apply IH; exact Hst'].
Qed.

(** What the bit loop returns: symbols that are not 0, below 64 when the
    table holds bytes, and the closing 0. *)
Lemma extract_shape (table : list Z) (offset : Z) (fuel : nat)
  (temp : list Z) :
  extract fuel table offset = Some temp ->
  exists symbols,
    temp = symbols ++ [0]
    /\ Forall (fun s => s <> 0) symbols
    /\ (Forall is_byte table -> Forall (fun s => 0 <= s < 64) symbols).
Proof.
  unfold extract. intros H.
  destruct (extract_loop_groups _ _ _ _ _ H) as (n & _ & E & Hlast & Hbefore).
  cbn [app] in E. subst temp.
  set (l := groups (S n) table (start offset)) in *.
  assert (Hlen : length l = S n) by apply groups_length.
  exists (firstn n l). split; [|split].
  - pose proof (split_last 1 n l Hlen) as Hs. rewrite Hlast in Hs. exact Hs.
  - apply Forall_forall. intros s Hs.
    apply (In_nth _ _ 0) in Hs. destruct Hs as (k & Hk & <-).
    rewrite length_firstn in Hk. rewrite nth_firstn.
    destruct (Nat.ltb_spec k n); [apply Hbefore|]; lia.
  - intros Ht. apply Forall_forall. intros s Hs.
    pose proof (groups_bounded table Ht (S n) (start offset)
                  (start_wf offset)) as Hb.
    fold l in Hb. rewrite Forall_forall in Hb. apply Hb.
    rewrite <- (firstn_skipn n l). apply in_or_app. left. exact Hs.
Qed.

Lemma literal_alphabet (symbols : list Z) :
  Forall (fun s => s <> 0) symbols ->
  Forall (fun s => 0 <= s < 64) symbols ->
  Forall (fun c => In c alphabet) (literal symbols).
Proof.
  intros Hnz Hb. unfold literal. apply Forall_forall. intros c Hc.
  apply in_map_iff in Hc. destruct Hc as (s & <- & Hs).
  apply filter_In in Hs. destruct Hs as [Hin Hlt].
  apply Z.ltb_lt in Hlt.
  rewrite Forall_forall in Hnz, Hb.
  pose proof (Hnz s Hin). pose proof (Hb s Hin).
  unfold Py.item, alphabet.
  replace (Z.to_nat s) with (S (Z.to_nat (s - 1))) by lia.
  change (nth (S (Z.to_nat (s - 1))) BASE64CHARSET 0)
    with (nth (Z.to_nat (s - 1)) (tl BASE64CHARSET) 0).
  apply nth_In. change (length (tl BASE64CHARSET)) with 47%nat. lia.
Qed.

Lemma Forall_firstn {A} (P : A -> Prop) (l : list A) (n : nat) :
  Forall P l -> Forall P (firstn n l).
Proof.
  intros H. rewrite Forall_forall in *. intros x Hx. apply H.
  rewrite <- (firstn_skipn n l). apply in_or_app. left. exact Hx.
Qed.

Lemma Forall_skipn {A} (P : A -> Prop) (l : list A) (n : nat) :
  Forall P l -> Forall P (skipn n l).
Proof.
  intros H. rewrite Forall_forall in *. intros x Hx. apply H.
  rewrite <- (firstn_skipn n l). apply in_or_app. right. exact Hx.
Qed.

Lemma Forall_slice {A} (P : A -> Prop) (l : list A) (lo hi : Z) :
  Forall P l -> Forall P (Py.slice l lo hi).
Proof.
  intros H. unfold Py.slice. apply Forall_firstn, Forall_skipn, H.
Qed.

Lemma reconstruct_alphabet (table : list Z) (offset : Z) (fuel : nat)
  (prevName temp : list Z) :
  Forall is_byte table ->
  extract fuel table offset = Some temp ->
  Forall (fun c => In c alphabet) prevName ->
  Forall (fun c => In c alphabet) (reconstruct prevName temp).
Proof.
  intros Ht He Hp.
  destruct (extract_shape table offset fuel temp He)
    as (symbols & -> & Hnz & Hb).
  specialize (Hb Ht). rewrite reconstruct_symbols.
  destruct (nth 0 symbols 0 <? 56).
  - apply literal_alphabet; assumption.
  - apply Forall_app. split; [apply Forall_slice; exact Hp|].
    apply literal_alphabet; apply Forall_skipn; assumption.
Qed.

(** X15.  Every path the "Dave" branch decodes from a string table of
    bytes is made of the 47 characters of the alphabet alone: it holds no
    zero character, whatever the bytes of the table and the offsets of the
    entries. *)
Theorem packed_paths_alphabet (table : list Z) (fuel : nat)
  (entries done : list TOCEntry) :
  Forall is_byte table ->
  decode_packed fuel table entries [] = Some done ->
  Forall (fun e => Forall (fun c => In c alphabet) (filepath e)
                   /\ ~ In 0 (filepath e)) done
  /\ length done = length entries.
Proof.
  intros Ht.
  assert (Hgen : forall es first out,
    Forall (fun c => In c alphabet) first ->
    decode_packed fuel table es first = Some out ->
    Forall (fun e => Forall (fun c => In c alphabet) (filepath e)) out
    /\ length out = length es).
  { induction es as [|e es IH]; intros first out Hf H.
    - injection H as <-. split; [constructor | reflexivity].
    - cbn [decode_packed] in H.
      destruct (extract fuel table (nameOffset e)) as [temp|] eqn:Ex;
        [|discriminate].
      destruct (decode_packed fuel table es (reconstruct first temp))
        as [rest|] eqn:Er; [|discriminate].
      injection H as <-.
      pose proof (reconstruct_alphabet table _ fuel first temp Ht Ex Hf) as Ha.
      destruct (IH _ _ Ha Er) as [Hrest Hlen].
      split; [constructor; [exact Ha | exact Hrest] | simpl; congruence]. }
  intros H. destruct (Hgen entries [] done (Forall_nil _) H) as [Ha Hl].
  split; [|exact Hl].
  rewrite Forall_forall in *. intros e He. split; [apply Ha, He|].
  intros H0. specialize (Ha e He). rewrite Forall_forall in Ha.
  specialize (Ha 0 H0). vm_compute in Ha. intuition discriminate.
Qed.

Lemma packed_paths_alphabet_witness :
  Forall is_byte packed_sample
  /\ decode_packed 28 packed_sample [entry_at 0; entry_at 3] []
     = Some [set_filepath (entry_at 0) (Py.str "ab");
             set_filepath (entry_at 3) (Py.str "ac")]
  /\ Forall (fun e => Forall (fun c => In c alphabet) (filepath e)
                      /\ ~ In 0 (filepath e))
            [set_filepath (entry_at 0) (Py.str "ab");
             set_filepath (entry_at 3) (Py.str "ac")].
Proof.
  assert (Ht : Forall is_byte packed_sample)
    by (repeat constructor; unfold is_byte; lia).
  split; [exact Ht|]. split; [reflexivity|].
  exact (proj1 (packed_paths_alphabet packed_sample 28
                  [entry_at 0; entry_at 3] _ Ht eq_refl)).
Defined.

(** ** The command line *)

(** X16.  The script never reports a wrong use.  When the command, in
    lower case, is neither "unpack" nor "pack", or when it is "pack" with
    a number of arguments other than two, or than three of which the last
    is "compress" as written, nothing is read or written and the script
    prints "File successfully (un)packed!". *)
Theorem main_does_nothing (lower : list Z -> list Z)
  (open_rb : list Z -> option (list Z)) (exists_dir : list Z -> bool)
  (tree : list Z -> AssetSource) (deflate : list Z -> list Z)
  (inflate : list Z -> option (list Z)) (fuel : nat)
  (argv : list (list Z)) (command : list Z) :
  nth_error argv 1 = Some command ->
  lower command <> Py.str "unpack" ->
  lower command <> Py.str "pack"
  \/ (Py.len argv <> 4
      /\ (Py.len argv <> 5 \/ nth_error argv 4 <> Some (Py.str "compress"))) ->
  main lower open_rb exists_dir tree deflate inflate fuel argv
  = Some (nothing_done None).
Proof.
  intros Hc Hu Hp. unfold main. rewrite Hc, (eqb_neq _ _ Hu).
  destruct Hp as [Hp|[H4 H5]]; [rewrite (eqb_neq _ _ Hp); reflexivity|].
  destruct (Py.eqb (lower command) (Py.str "pack")); [|reflexivity].
  destruct (Z.eqb_spec (Py.len argv) 4) as [E|_]; [contradiction|].
  destruct H5 as [H5|H5].
  - destruct (Z.eqb_spec (Py.len argv) 5) as [E|_]; [contradiction|].
    reflexivity.
  - destruct (Py.len argv =? 5); [|reflexivity].
    destruct (nth_error argv 4) as [flag|]; [|reflexivity].
    rewrite eqb_neq by congruence. reflexivity.
Qed.

(** The command "pack" with the flag in capitals, and an identity for
    [str.lower]. *)
Lemma main_does_nothing_witness :
  nth_error [Py.str "dave_packer.py"; Py.str "pack"; Py.str "assets/";
             Py.str "out.dat"; Py.str "COMPRESS"] 1 = Some (Py.str "pack")
  /\ main (fun s => s) (fun _ => None) (fun _ => false) (fun _ => no_assets)
          (fun data => data) (fun _ => None) 0
          [Py.str "dave_packer.py"; Py.str "pack"; Py.str "assets/";
           Py.str "out.dat"; Py.str "COMPRESS"]
     = Some (nothing_done None).
Proof.
  split; [reflexivity|].
  apply (main_does_nothing (fun s => s) (fun _ => None) (fun _ => false)
           (fun _ => no_assets) (fun data => data) (fun _ => None) 0
           [Py.str "dave_packer.py"; Py.str "pack"; Py.str "assets/";
            Py.str "out.dat"; Py.str "COMPRESS"]
           (Py.str "pack") eq_refl).
  - vm_compute. discriminate.
  - right. split; [vm_compute; discriminate|].
    right. vm_compute. discriminate.
Defined.

Lemma read_archive_numFiles (file : list Z) :
  numFiles (fst (read_archive file O))
  = fst (read_int file (snd (read 4 file O))).
Proof.
  unfold read_archive, bind.
  destruct (read 4 file O) as [m p1]. cbn [snd].
  destruct (read_int file p1) as [n p2]. cbn [fst].
  repeat match goal with
         | |- context [let '(_, _) := ?c in _] => destruct c
         end.
  reflexivity.
Qed.

(** The count the script reads is the count [unpack] reads. *)
Lemma announced_numFiles (file : list Z) :
  announced file = numFiles (fst (read_archive file O)).
Proof.
  rewrite read_archive_numFiles. unfold announced, bind, seek, read_int, bind,
    read, ret. cbn [fst snd].
  change (Z.to_nat 4) with 4%nat. rewrite skipn_O, length_firstn, Nat.add_0_l.
  destruct (Nat.le_gt_cases 4 (length file)) as [H|H].
  - rewrite Nat.min_l by exact H. reflexivity.
  - rewrite Nat.min_r by lia.
    rewrite (skipn_all2 file (n := 4)) by lia.
    rewrite (skipn_all2 file (n := length file)) by lia. reflexivity.
Qed.

(** X17.  For the command "unpack" with an archive that can be opened
    and an output directory, the script does what [unpack] does from the
    start of the archive and prints its exception, if any; the count of
    files it warns with is the [entryCount] of the header, which is the
    number of entries [unpack] then reads. *)
Theorem main_unpack (lower : list Z -> list Z)
  (open_rb : list Z -> option (list Z)) (exists_dir : list Z -> bool)
  (tree : list Z -> AssetSource) (deflate : list Z -> list Z)
  (inflate : list Z -> option (list Z)) (fuel : nat)
  (argv : list (list Z)) (command archive file output : list Z) :
  nth_error argv 1 = Some command ->
  lower command = Py.str "unpack" ->
  nth_error argv 2 = Some archive ->
  open_rb archive = Some file ->
  nth_error argv 3 = Some output ->
  main lower open_rb exists_dir tree deflate inflate fuel argv
  = match unpack inflate fuel file (exists_dir output) with
    | None => None
    | Some (ops, e) =>
        Some {| warned := Some (numFiles (fst (read_archive file O)));
                unpacked := ops; packed := None;
                printed := option_map Raised e |}
    end
  /\ length (fileEntries (fst (read_archive file O)))
     = Z.to_nat (numFiles (fst (read_archive file O))).
Proof.
  intros H1 Hl H2 Ho H3. split; [|apply read_archive_entries].
  unfold main. rewrite H1, Hl, H2, Ho, H3, announced_numFiles.
  change (Py.eqb (Py.str "unpack") (Py.str "unpack")) with true. cbv iota.
  reflexivity.
Qed.

(** The scenario, unpacked from the command line without an output
    directory. *)
Lemma main_unpack_witness :
  main (fun s => s)
       (fun path => if Py.eqb path (Py.str "a.dat") then Some scenario_archive
                    else None)
       (fun _ => false) (fun _ => no_assets) (fun data => data)
       (fun _ => None) 2049
       [Py.str "dave_packer.py"; Py.str "unpack"; Py.str "a.dat";
        Py.str "out"]
  = Some {| warned := Some 3; unpacked := []; packed := None;
            printed := Some (Raised OutputDirectoryMissing) |}.
Proof.
  rewrite (proj1 (main_unpack (fun s => s)
             (fun path => if Py.eqb path (Py.str "a.dat")
                          then Some scenario_archive else None)
             (fun _ => false) (fun _ => no_assets) (fun data => data)
             (fun _ => None) 2049
             [Py.str "dave_packer.py"; Py.str "unpack"; Py.str "a.dat";
              Py.str "out"]
             (Py.str "unpack") (Py.str "a.dat")
             scenario_archive (Py.str "out")
             eq_refl eq_refl eq_refl eq_refl eq_refl)).
  vm_compute. reflexivity.
Defined.

(** ** The walk of [pack] *)

Lemma replace_twice (a b : Z) (s : list Z) :
  replace a b (replace a b s) = replace a b s.
Proof.
  unfold replace. rewrite map_map. apply map_ext. intros c.
  destruct (Z.eqb_spec c a) as [->|Hne].
  - destruct (b =? a); reflexivity.
  - apply Z.eqb_neq in Hne. rewrite Hne. reflexivity.
Qed.

Lemma eqb_nil (s : list Z) :
  Py.eqb s [] = match s with [] => true | _ => false end.
Proof. destruct s; reflexivity. Qed.

(** X18.  One turn of the walk, for a root that is the asset path and
    [rel] after it.  The paths collected are as many as the directories
    and the files of the turn, and every path of a directory ends in "/".
    For the asset path itself ([rel] empty) they are the bare names.  For
    a root below it they are [rel], with "/" for every backslash, then
    "/" and the name: so when [rel] begins with a separator, as it does
    when the asset path is given without a closing separator, every path
    of a sub-directory begins with "/". *)
Theorem walk_step_paths (assetPath rel : list Z)
  (dirs files : list (list Z)) :
  length (walk_step assetPath (assetPath ++ rel, dirs, files))
  = (length dirs + length files)%nat
  /\ Forall (fun p => Py.endswith p slash = true)
            (firstn (length dirs)
               (walk_step assetPath (assetPath ++ rel, dirs, files)))
  /\ (rel = [] ->
      walk_step assetPath (assetPath ++ rel, dirs, files)
      = map (fun dir => dir ++ [slash]) dirs
        ++ map (replace backslash slash) files)
  /\ (rel <> [] ->
      walk_step assetPath (assetPath ++ rel, dirs, files)
      = map (fun dir => replace backslash slash rel ++ slash :: dir ++ [slash])
            dirs
        ++ map (fun f => replace backslash slash rel ++ slash :: f) files)
  /\ (forall sep rest, rel = sep :: rest ->
      sep = slash \/ sep = backslash ->
      Forall (fun p => exists q, p = slash :: q)
             (walk_step assetPath (assetPath ++ rel, dirs, files))).
Proof.
  unfold walk_step.
  rewrite (skipn_exact assetPath rel (length assetPath) eq_refl).
  set (root := replace backslash slash rel).
  assert (Hroot : Py.eqb root []
                  = match rel with [] => true | _ => false end).
  { rewrite eqb_nil. unfold root. destruct rel; reflexivity. }
  split; [rewrite length_app, !length_map; reflexivity|].
  split.
  { rewrite firstn_app, length_map, Nat.sub_diag, firstn_O, app_nil_r.
    rewrite <- (length_map (fun dir =>
                 if negb (Py.eqb root []) then root ++ slash :: dir ++ [slash]
                 else dir ++ [slash]) dirs) at 1.
    rewrite firstn_all. apply Forall_forall. intros p Hp.
    apply in_map_iff in Hp. destruct Hp as (dir & <- & _).
    destruct (negb (Py.eqb root [])).
    - change (root ++ slash :: dir ++ [slash])
        with (root ++ [slash] ++ dir ++ [slash]).
      rewrite !app_assoc. rewrite endswith_app. apply Z.eqb_refl.
    - rewrite endswith_app. apply Z.eqb_refl. }
  split; [|split].
  - intros ->. rewrite Hroot. cbn [negb].
    f_equal. apply map_ext. intros f. apply replace_twice.
  - intros Hne. rewrite Hroot.
    destruct rel; [congruence | reflexivity].
  - intros sep rest -> Hsep. rewrite Hroot. cbn [negb].
    assert (Hr : exists q, root = slash :: q).
    { unfold root, replace. cbn [map].
      destruct Hsep as [-> | ->]; eexists; reflexivity. }
    destruct Hr as [q Hq]. rewrite Hq.
    apply Forall_app. split; apply Forall_forall; intros p Hp;
      apply in_map_iff in Hp; destruct Hp as (x & <- & _);
      eexists; reflexivity.
Qed.
